(** * Koo-Toueg coordinated checkpointing simulation: the engine of [app.py]

    A shallow embedding of the classes [Process] and [SimulationController]
    and of the [trigger_failure] handler.

    - A [Process] object is a record.  The controller's list [processes] holds
      each object once (only [add_process] appends, and it appends a fresh
      object), so an object reference is modelled as a position in that list
      and a mutation of the object as an update at that position.
    - Python floats are binary64 primitive floats, Python ints are [Z].
    - [random.random()], [time.time()] and [uuid.uuid4()] are oracles: the
      k-th call returns the k-th value of a stream; the world counts calls.
    - [socketio.emit] appends an event to the trace of the world.  A log
      event carries the values interpolated into its message rather than the
      rendered text.
    - [socketio.sleep] is a cooperative yield.  While a protocol run sleeps,
      the server may run the [trigger_failure] handler for the events that
      arrived: the world carries, for each future yield, the pids whose
      failure arrives there.  With no arrivals every sleep does nothing and
      the run is sequential. *)

From Stdlib Require Import ZArith String List Bool Lia.
From Stdlib Require Import Floats.PrimFloat.
From Stdlib Require Import Numbers.DecimalString.
From stdpp Require Import base list sorting gmap strings.

Set Warnings "-inexact-float".

(** ** Data model *)

Inductive Status := running | checkpointing | recovering | failed.

Inductive CheckpointKind := tentative | permanent.

(** The dict [Process.state]: four float fields and the integer
    ["computation_step"]. *)
Record State := mkState {
  temperature : float;
  pressure : float;
  wind_speed : float;
  humidity : float;
  computation_step : Z
}.

(** The dict built by [take_tentative_checkpoint]. *)
Record Checkpoint := mkCheckpoint {
  ckpt_pid : Z;
  ckpt_timestamp : float;
  ckpt_state : State;
  ckpt_sent_counter : gmap Z Z;
  ckpt_rcvd_counter : gmap Z Z;
  ckpt_type : CheckpointKind;
  checkpoint_id : string
}.

Record Process := mkProcess {
  pid : Z;
  custom_name : string;
  num_processes : Z;
  state : State;
  checkpoints : list Checkpoint;
  sent_counter : gmap Z Z;
  rcvd_counter : gmap Z Z;
  is_failed : bool;
  status : Status;
  checkpoint_type : option CheckpointKind;
  messages_sent : Z;
  messages_received : Z
}.

Record SimulationController := mkController {
  processes : list Process;
  next_pid : Z;
  is_running : bool;
  is_paused : bool;
  auto_mode : bool;
  computation_speed : float;
  checkpoint_frequency : Z;
  step_count : Z
}.

(** The dict returned by [get_state_dict]. *)
Record StateDict := mkStateDict {
  sd_pid : Z;
  sd_custom_name : string;
  sd_state : State;
  sd_status : Status;
  sd_checkpoint_type : option CheckpointKind;
  sd_num_checkpoints : nat;
  sd_is_failed : bool;
  sd_messages_sent : Z;
  sd_messages_received : Z;
  sd_last_checkpoint_id : option string
}.

(** The dict returned by [get_all_states]. *)
Record AllStates := mkAllStates {
  as_processes : list StateDict;
  as_step_count : Z;
  as_is_running : bool;
  as_is_paused : bool
}.

Inductive LogType :=
  log_info | log_checkpoint | log_success | log_error | log_recovery | log_step.

(** One constructor per ['log'] message of the engine, with the values its
    f-string interpolates. *)
Inductive Message :=
| MsgPhase1
| MsgTentative (name ckpt : string) (step : Z)
| MsgCommitting
| MsgCommitted (name ckpt : string)
| MsgAborted
| MsgRecoveryInitiated (name : string)
| MsgRestored (name ckpt : string) (step : Z)
| MsgRecoveryComplete
| MsgStep (n : Z)
| MsgFailure (name : string).

Inductive Event :=
| EvLog (m : Message) (t : LogType)
| EvUpdate (s : AllStates).

(** The oracles standing for the [random], [time] and [uuid] modules. *)
Record Env := mkEnv {
  random_random : nat -> float;
  time_time : nat -> float;
  uuid4 : nat -> string
}.

Record World := mkWorld {
  ctrl : SimulationController;
  emitted : list Event;
  draws : nat;
  ticks : nat;
  uuids : nat;
  arrivals : list (list Z)
}.

(** ** Field updates *)

Definition set_state (s : State) (p : Process) : Process :=
  mkProcess (pid p) (custom_name p) (num_processes p) s (checkpoints p)
    (sent_counter p) (rcvd_counter p) (is_failed p) (status p)
    (checkpoint_type p) (messages_sent p) (messages_received p).

Definition set_checkpoints (l : list Checkpoint) (p : Process) : Process :=
  mkProcess (pid p) (custom_name p) (num_processes p) (state p) l
    (sent_counter p) (rcvd_counter p) (is_failed p) (status p)
    (checkpoint_type p) (messages_sent p) (messages_received p).

Definition set_sent_counter (m : gmap Z Z) (p : Process) : Process :=
  mkProcess (pid p) (custom_name p) (num_processes p) (state p) (checkpoints p)
    m (rcvd_counter p) (is_failed p) (status p)
    (checkpoint_type p) (messages_sent p) (messages_received p).

Definition set_rcvd_counter (m : gmap Z Z) (p : Process) : Process :=
  mkProcess (pid p) (custom_name p) (num_processes p) (state p) (checkpoints p)
    (sent_counter p) m (is_failed p) (status p)
    (checkpoint_type p) (messages_sent p) (messages_received p).

Definition set_is_failed (b : bool) (p : Process) : Process :=
  mkProcess (pid p) (custom_name p) (num_processes p) (state p) (checkpoints p)
    (sent_counter p) (rcvd_counter p) b (status p)
    (checkpoint_type p) (messages_sent p) (messages_received p).

Definition set_status (s : Status) (p : Process) : Process :=
  mkProcess (pid p) (custom_name p) (num_processes p) (state p) (checkpoints p)
    (sent_counter p) (rcvd_counter p) (is_failed p) s
    (checkpoint_type p) (messages_sent p) (messages_received p).

Definition set_checkpoint_type (k : option CheckpointKind) (p : Process) : Process :=
  mkProcess (pid p) (custom_name p) (num_processes p) (state p) (checkpoints p)
    (sent_counter p) (rcvd_counter p) (is_failed p) (status p)
    k (messages_sent p) (messages_received p).

Definition set_messages_sent (n : Z) (p : Process) : Process :=
  mkProcess (pid p) (custom_name p) (num_processes p) (state p) (checkpoints p)
    (sent_counter p) (rcvd_counter p) (is_failed p) (status p)
    (checkpoint_type p) n (messages_received p).

Definition set_messages_received (n : Z) (p : Process) : Process :=
  mkProcess (pid p) (custom_name p) (num_processes p) (state p) (checkpoints p)
    (sent_counter p) (rcvd_counter p) (is_failed p) (status p)
    (checkpoint_type p) (messages_sent p) n.

Definition set_ckpt_type (k : CheckpointKind) (c : Checkpoint) : Checkpoint :=
  mkCheckpoint (ckpt_pid c) (ckpt_timestamp c) (ckpt_state c)
    (ckpt_sent_counter c) (ckpt_rcvd_counter c) k (checkpoint_id c).

Definition set_processes (l : list Process) (c : SimulationController)
  : SimulationController :=
  mkController l (next_pid c) (is_running c) (is_paused c) (auto_mode c)
    (computation_speed c) (checkpoint_frequency c) (step_count c).

Definition set_next_pid (n : Z) (c : SimulationController) : SimulationController :=
  mkController (processes c) n (is_running c) (is_paused c) (auto_mode c)
    (computation_speed c) (checkpoint_frequency c) (step_count c).

Definition set_step_count (n : Z) (c : SimulationController) : SimulationController :=
  mkController (processes c) (next_pid c) (is_running c) (is_paused c)
    (auto_mode c) (computation_speed c) (checkpoint_frequency c) n.

Definition set_ctrl (c : SimulationController) (w : World) : World :=
  mkWorld c (emitted w) (draws w) (ticks w) (uuids w) (arrivals w).

Definition set_emitted (l : list Event) (w : World) : World :=
  mkWorld (ctrl w) l (draws w) (ticks w) (uuids w) (arrivals w).

Definition set_draws (n : nat) (w : World) : World :=
  mkWorld (ctrl w) (emitted w) n (ticks w) (uuids w) (arrivals w).

Definition set_ticks (n : nat) (w : World) : World :=
  mkWorld (ctrl w) (emitted w) (draws w) n (uuids w) (arrivals w).

Definition set_uuids (n : nat) (w : World) : World :=
  mkWorld (ctrl w) (emitted w) (draws w) (ticks w) n (arrivals w).

Definition set_arrivals (l : list (list Z)) (w : World) : World :=
  mkWorld (ctrl w) (emitted w) (draws w) (ticks w) (uuids w) l.

Definition procs (w : World) : list Process := processes (ctrl w).

Definition set_procs (l : list Process) (w : World) : World :=
  set_ctrl (set_processes l (ctrl w)) w.

(** [f] applied to the object at position [i] of [self.processes]. *)
Definition update_process (i : nat) (f : Process -> Process) (w : World) : World :=
  set_procs (alter f i (procs w)) w.

(** ** class Process *)

Definition string_of_Z (z : Z) : string := NilZero.string_of_int (Z.to_int z).

(** [random.uniform(a, b)] is [a + (b - a) * random()]. *)
Definition uniform (a b r : float) : float := (a + (b - a) * r)%float.

(** [x or y] on an optional string: [None] and the empty string are falsy. *)
Definition truthy (o : option string) : bool :=
  match o with
  | Some s => negb (String.eqb s "")
  | None => false
  end.

(** [Process.__init__]; [k] is the number of [random()] calls made so far,
    the result carries the new count. *)
Definition new_process (rnd : nat -> float) (k : nat) (pid0 num : Z)
    (name : option string) : Process * nat :=
  let r0 := rnd k in
  let r1 := rnd (k + 1) in
  let r2 := rnd (k + 2) in
  let r3 := rnd (k + 3) in
  (mkProcess pid0
     (match name with
      | Some s => if truthy name then s else "Node-" ++ string_of_Z pid0
      | None => "Node-" ++ string_of_Z pid0
      end)%string
     num
     (mkState (20.0 + uniform (-5) 5 r0)%float
              (1013.0 + uniform (-10) 10 r1)%float
              (10.0 + uniform (-3) 3 r2)%float
              (60.0 + uniform (-10) 10 r3)%float
              0%Z)
     [] ∅ ∅ false running None 0%Z 0%Z,
   k + 4).

Definition take_tentative_checkpoint (now : float) (uid : string) (p : Process)
  : Process * Checkpoint :=
  let p := set_status checkpointing p in
  let p := set_checkpoint_type (Some tentative) p in
  (p, mkCheckpoint (pid p) now (state p) (sent_counter p) (rcvd_counter p)
        tentative (String.substring 0 8 uid)).

Definition commit_checkpoint (checkpoint : Checkpoint) (p : Process) : Process :=
  let checkpoint := set_ckpt_type permanent checkpoint in
  let p := set_checkpoints (checkpoints p ++ [checkpoint]) p in
  set_checkpoint_type (Some permanent) p.

Definition abort_checkpoint (p : Process) : Process :=
  set_checkpoint_type None (set_status running p).

Definition simulate_computation (rnd : nat -> float) (k : nat)
    (intensity : float) (p : Process) : Process * nat :=
  if is_failed p then (p, k)
  else
    let r0 := rnd k in
    let r1 := rnd (k + 1) in
    let r2 := rnd (k + 2) in
    let r3 := rnd (k + 3) in
    let r4 := rnd (k + 4) in
    let r5 := rnd (k + 5) in
    let s := state p in
    let s := mkState
      (temperature s + uniform (-0.5) 0.5 r0 * intensity)%float
      (pressure s + uniform (-2) 2 r1 * intensity)%float
      (wind_speed s + uniform (-0.3) 0.3 r2 * intensity)%float
      (humidity s + uniform (-0.5) 0.5 r3 * intensity)%float
      (computation_step s + 1)%Z in
    let p := set_state s p in
    let p := if (0.7 <? r4)%float
             then set_messages_sent (messages_sent p + 1)%Z p else p in
    let p := if (0.7 <? r5)%float
             then set_messages_received (messages_received p + 1)%Z p else p in
    (p, k + 6).

(** The result is the checkpoint id, or [None]. *)
Definition restore_from_checkpoint (p : Process) : Process * option string :=
  match last (checkpoints p) with
  | Some last_checkpoint =>
      let p := set_state (ckpt_state last_checkpoint) p in
      let p := set_sent_counter (ckpt_sent_counter last_checkpoint) p in
      let p := set_rcvd_counter (ckpt_rcvd_counter last_checkpoint) p in
      let p := set_is_failed false p in
      let p := set_status recovering p in
      (p, Some (checkpoint_id last_checkpoint))
  | None => (p, None)
  end.

Definition simulate_failure (p : Process) : Process :=
  set_status failed (set_is_failed true p).

Definition get_state_dict (p : Process) : StateDict :=
  mkStateDict (pid p) (custom_name p) (state p) (status p) (checkpoint_type p)
    (length (checkpoints p)) (is_failed p) (messages_sent p)
    (messages_received p) (checkpoint_id <$> last (checkpoints p)).

(** ** class SimulationController *)

Definition init_controller : SimulationController :=
  mkController [] 0%Z false false false 1.0%float 5%Z 0%Z.

Definition init_world (sched : list (list Z)) : World :=
  mkWorld init_controller [] 0 0 0 sched.

Definition get_all_states (c : SimulationController) : AllStates :=
  mkAllStates (map get_state_dict (processes c)) (step_count c)
    (is_running c) (is_paused c).

(** The first process with the given pid, with its position. *)
Definition get_process (c : SimulationController) (k : Z) : option (nat * Process) :=
  list_find (fun p => pid p = k) (processes c).

Definition emit (e : Event) (w : World) : World :=
  set_emitted (emitted w ++ [e]) w.

Definition emit_update (w : World) : World :=
  emit (EvUpdate (get_all_states (ctrl w))) w.

Definition emit_log (m : Message) (t : LogType) (w : World) : World :=
  emit (EvLog m t) w.

(** The [trigger_failure] handler. *)
Definition handle_trigger_failure (k : Z) (w : World) : World :=
  match get_process (ctrl w) k with
  | Some (i, p) =>
      if is_failed p then w
      else
        let w := update_process i simulate_failure w in
        let w := emit_update w in
        emit_log (MsgFailure (custom_name p)) log_error w
  | None => w
  end.

(** [socketio.sleep]: the failures that arrive during this yield are handled. *)
Definition sleep (w : World) : World :=
  match arrivals w with
  | [] => w
  | now :: later =>
      fold_left (fun w k => handle_trigger_failure k w) now (set_arrivals later w)
  end.

Section Controller.

Variable env : Env.

Definition add_process (name : option string) (w : World) : World * Z :=
  let c := ctrl w in
  let '(process, k) :=
    new_process (random_random env) (draws w) (next_pid c)
      (Z.of_nat (length (processes c)) + 1)%Z name in
  let c := set_processes (processes c ++ [process]) c in
  let c := set_next_pid (next_pid c + 1)%Z c in
  (set_draws k (set_ctrl c w), pid process).

Definition remove_process (k : Z) (w : World) : World :=
  set_procs (filter (fun p => pid p ≠ k) (procs w)) w.

(** *** initiate_checkpoint *)

(** One iteration of the phase-1 loop, for the process at position [i]. *)
Definition tentative_step (i : nat) (st : World * list (nat * Checkpoint))
  : World * list (nat * Checkpoint) :=
  let '(w, tentative_checkpoints) := st in
  match procs w !! i with
  | Some process =>
      if is_failed process then st
      else
        let '(process, ckpt) :=
          take_tentative_checkpoint (time_time env (ticks w))
            (uuid4 env (uuids w)) process in
        let w := set_ticks (S (ticks w)) (set_uuids (S (uuids w)) w) in
        let w := update_process i (fun _ => process) w in
        let tentative_checkpoints := tentative_checkpoints ++ [(i, ckpt)] in
        let w := emit_update w in
        let w := emit_log (MsgTentative (custom_name process) (checkpoint_id ckpt)
                             (computation_step (state process))) log_info w in
        (sleep w, tentative_checkpoints)
  | None => st
  end.

Definition tentative_loop (idxs : list nat) (st : World * list (nat * Checkpoint))
  : World * list (nat * Checkpoint) :=
  fold_left (fun st i => tentative_step i st) idxs st.

(** One iteration of the commit loop. *)
Definition commit_step (w : World) (pair : nat * Checkpoint) : World :=
  let '(i, ckpt) := pair in
  match procs w !! i with
  | Some process =>
      let w := update_process i (commit_checkpoint ckpt) w in
      let w := emit_update w in
      let w := emit_log (MsgCommitted (custom_name process) (checkpoint_id ckpt))
                 log_success w in
      sleep w
  | None => w
  end.

Definition abort_step (w : World) (pair : nat * Checkpoint) : World :=
  update_process pair.1 abort_checkpoint w.

(** The decision of phase 2, taken on the world as it is after phase 1. *)
Definition all_acks (w : World) (tentative_checkpoints : list (nat * Checkpoint))
  : bool :=
  Nat.eqb (length tentative_checkpoints)
          (length (filter (fun p => is_failed p = false) (procs w))).

Definition phase2 (all_success : bool) (w : World)
    (tentative_checkpoints : list (nat * Checkpoint)) : World :=
  if all_success then
    let w := emit_log MsgCommitting log_success w in
    let w := sleep w in
    fold_left commit_step tentative_checkpoints w
  else
    let w := emit_log MsgAborted log_error w in
    fold_left abort_step tentative_checkpoints w.

(** The last loop of [initiate_checkpoint]. *)
Definition finalize (p : Process) : Process :=
  if is_failed p then p
  else set_checkpoint_type None (set_status running p).

(** The world when phase 1 starts. *)
Definition phase1_start (w : World) : World :=
  sleep (emit_log MsgPhase1 log_checkpoint w).

(** Phase 1: the world after it and the pairs collected. *)
Definition phase1 (w : World) : World * list (nat * Checkpoint) :=
  let w := phase1_start w in
  tentative_loop (seq 0 (length (procs w))) (w, []).

Definition initiate_checkpoint (w : World) : World * bool :=
  let '(w, tentative_checkpoints) := phase1 w in
  let w := sleep w in
  let all_success := all_acks w tentative_checkpoints in
  let w := phase2 all_success w tentative_checkpoints in
  let w := sleep w in
  let w := set_procs (finalize <$> procs w) w in
  let w := emit_update w in
  (w, all_success).

(** *** initiate_recovery *)

Definition restore_step (w : World) (i : nat) : World :=
  match procs w !! i with
  | Some process =>
      let '(process, ckpt_id) := restore_from_checkpoint process in
      let w := update_process i (fun _ => process) w in
      match ckpt_id with
      | Some id =>
          if truthy ckpt_id then
            let w := emit_log (MsgRestored (custom_name process) id
                                 (computation_step (state process)))
                       log_recovery w in
            let w := sleep w in
            emit_update w
          else w
      | None => w
      end
  | None => w
  end.

Definition initiate_recovery (failed_pid : Z) (w : World) : World :=
  match get_process (ctrl w) failed_pid with
  | None => w
  | Some (i, failed_process) =>
      let w := emit_log (MsgRecoveryInitiated (custom_name failed_process))
                 log_recovery w in
      let w := sleep w in
      let w := update_process i (set_is_failed false) w in
      let w := fold_left restore_step (seq 0 (length (procs w))) w in
      let w := sleep w in
      let w := set_procs (set_status running <$> procs w) w in
      let w := emit_update w in
      emit_log MsgRecoveryComplete log_success w
  end.

(** *** step_computation *)

(** The loop calling [simulate_computation] on every process; [k] counts the
    [random()] calls. *)
Fixpoint compute_all (intensity : float) (l : list Process) (k : nat)
  : list Process * nat :=
  match l with
  | [] => ([], k)
  | p :: rest =>
      let '(p, k) := simulate_computation (random_random env) k intensity p in
      let '(rest, k) := compute_all intensity rest k in
      (p :: rest, k)
  end.

(** How a call ends: it returns, or [%] raises on a zero divisor. *)
Inductive Outcome :=
| Returned (w : World)
| ZeroDivisionError (w : World).

Definition world_of (o : Outcome) : World :=
  match o with
  | Returned w => w
  | ZeroDivisionError w => w
  end.

(** The first half of [step_computation]: the counter, the log line, the
    loop over the processes and the update. *)
Definition advance_all (w : World) : World :=
  let w := set_ctrl (set_step_count (step_count (ctrl w) + 1)%Z (ctrl w)) w in
  let w := emit_log (MsgStep (step_count (ctrl w))) log_step w in
  let '(l, k) := compute_all (computation_speed (ctrl w)) (procs w) (draws w) in
  let w := set_draws k (set_procs l w) in
  emit_update w.

Definition step_computation (w : World) : Outcome :=
  let w := advance_all w in
  if auto_mode (ctrl w) then
    if (checkpoint_frequency (ctrl w) =? 0)%Z then ZeroDivisionError w
    else if (step_count (ctrl w) mod checkpoint_frequency (ctrl w) =? 0)%Z
    then Returned (initiate_checkpoint (sleep w)).1
    else Returned w
  else Returned w.

(** [n] calls of [step_computation] in a row, stopping at the first raise. *)
Fixpoint steps (n : nat) (w : World) : Outcome :=
  match n with
  | 0 => Returned w
  | S n =>
      match step_computation w with
      | Returned w => steps n w
      | ZeroDivisionError w => ZeroDivisionError w
      end
  end.

End Controller.

(** ** Observations used in the statements *)

#[global] Instance Message_eq_dec : EqDecision Message.
Proof. solve_decision. Defined.

(** The three markers of a checkpoint run: start, commit decision, abort
    decision. *)
Definition marker (m : Message) : bool :=
  match m with
  | MsgPhase1 | MsgCommitting | MsgAborted => true
  | _ => false
  end.

Definition is_log (m : Message) (e : Event) : bool :=
  match e with
  | EvLog m' _ => bool_decide (m' = m)
  | EvUpdate _ => false
  end.

(** How many times the message [m] has been logged. *)
Definition logged (m : Message) (w : World) : nat :=
  length (List.filter (is_log m) (emitted w)).

(** A projection of every process, in the order of the collection. *)
Definition view {A : Type} (f : Process -> A) (w : World) : list A :=
  f <$> procs w.

(** The process at position [i] exists and is not failed. *)
Definition alive (w : World) (i : nat) : bool :=
  match procs w !! i with
  | Some p => negb (is_failed p)
  | None => false
  end.

(** The non-failed processes of the collection. *)
Definition non_failed (w : World) : list Process :=
  filter (fun p => is_failed p = false) (procs w).

(** The world in which the phase-1 loop reaches position [i]. *)
Definition at_turn (env : Env) (w : World) (i : nat) : World :=
  (tentative_loop env (seq 0 i) (phase1_start w, [])).1.

(** A participant of a run: a process not failed when its phase-1 turn comes. *)
Definition participant (env : Env) (w : World) (i : nat) : bool :=
  alive (at_turn env w i) i.

(** The world on which the decision of phase 2 is taken. *)
Definition at_decision (env : Env) (w : World) : World :=
  sleep (phase1 env w).1.

(** Repeated [simulate_computation] on one process, one call per intensity. *)
Definition advances (rnd : nat -> float) (intensities : list float)
    (st : Process * nat) : Process * nat :=
  fold_left (fun st x => simulate_computation rnd st.2 x st.1) intensities st.

(** Sequences of [add_process] and [remove_process] calls; [run] returns the
    final world and the pids returned by [add_process], oldest first. *)
Inductive Op :=
| Add (name : option string)
| Remove (k : Z).

Definition run_op (env : Env) (st : World * list Z) (o : Op) : World * list Z :=
  match o with
  | Add name => let '(w, k) := add_process env name st.1 in (w, st.2 ++ [k])
  | Remove k => (remove_process k st.1, st.2)
  end.

Definition run (env : Env) (ops : list Op) (w : World) : World * list Z :=
  fold_left (run_op env) ops (w, []).

(** The consistency between the flag and the status text. *)
Definition consistent (p : Process) : Prop :=
  is_failed p = true -> status p = failed.

(** What the commit loop does to the list of histories. *)
Definition committed (tent : list (nat * Checkpoint))
    (h : list (list Checkpoint)) : list (list Checkpoint) :=
  fold_left (fun h x => alter (fun l => l ++ [set_ckpt_type permanent x.2]) x.1 h)
    tent h.

(** What phase 1 does to a process. *)
Definition tentative_mark (p : Process) : Process :=
  if is_failed p then p
  else set_checkpoint_type (Some tentative) (set_status checkpointing p).

(** What [simulate_computation] may change in a process. *)
Definition progress (p : Process) : State * Z * Z :=
  (state p, messages_sent p, messages_received p).

(** The part of the world that neither protocol touches: the settings and
    counters of the controller and the number of [random()] calls. *)
Definition config (w : World) : Z * bool * bool * bool * float * Z * Z * nat :=
  (next_pid (ctrl w), is_running (ctrl w), is_paused (ctrl w), auto_mode (ctrl w),
   computation_speed (ctrl w), checkpoint_frequency (ctrl w), step_count (ctrl w),
   draws w).

(** ** Sample worlds *)

Definition sample_env : Env :=
  mkEnv (fun _ => 0.75%float) (fun _ => 1700000000.0%float)
    (fun k => (string_of_Z (10000000 + Z.of_nat k)
               ++ "-0000-4000-8000-000000000000")%string).

(** Three processes, pids 0, 1 and 2, none failed, no checkpoint yet; [sched]
    lists the failures that will arrive at the coming yields. *)
Definition three_processes (sched : list (list Z)) : World :=
  let w := init_world sched in
  let w := (add_process sample_env None w).1 in
  let w := (add_process sample_env None w).1 in
  (add_process sample_env None w).1.

(** A process with one committed checkpoint, taken when it was created. *)
Definition checkpointed_process : Process :=
  let p := (new_process (random_random sample_env) 0 0%Z 1%Z None).1 in
  let '(p, ckpt) :=
    take_tentative_checkpoint (time_time sample_env 0) (uuid4 sample_env 0) p in
  commit_checkpoint ckpt p.

(** The three processes after one checkpoint run and one computation step. *)
Definition after_checkpoint_and_step : World :=
  world_of (step_computation sample_env
              (initiate_checkpoint sample_env (three_processes [])).1).

(** The three processes, none with a checkpoint, pids 0 and 1 failed. *)
Definition two_failed : World :=
  handle_trigger_failure 1 (handle_trigger_failure 0 (three_processes [])).

#[global] Instance Status_eq_dec : EqDecision Status.
Proof. solve_decision. Defined.

#[global] Instance consistent_dec (p : Process) : Decision (consistent p).
Proof. unfold consistent. apply _. Defined.

(** What the restore loop of [initiate_recovery] does to a process. *)
Definition restored (p : Process) : Process := (restore_from_checkpoint p).1.

(** The three processes after one checkpoint run, then pids 0 and 1 failed. *)
Definition checkpointed_then_failed : World :=
  handle_trigger_failure 1
    (handle_trigger_failure 0 (initiate_checkpoint sample_env (three_processes [])).1).

(** The invariant of the pids: those of the collection are distinct and
    below [next_pid]; those returned so far are increasing and below
    [next_pid]. *)
Definition pids_ok (st : World * list Z) : Prop :=
  NoDup (pid <$> procs st.1) /\
  Forall (fun p => (pid p < next_pid (ctrl st.1))%Z) (procs st.1) /\
  Forall (fun k => (k < next_pid (ctrl st.1))%Z) st.2 /\
  StronglySorted Z.lt st.2.

(** The assignments of the [start_auto] handler (its log line and the
    background loop it starts are left out). *)
Definition start_auto (speed : float) (frequency : Z) (w : World) : World :=
  let c := ctrl w in
  set_ctrl (mkController (processes c) (next_pid c) true false true speed
              frequency (step_count c)) w.

(** Auto-mode with a checkpoint every 5 steps, on the three processes. *)
Definition auto_world : World := start_auto 1.0%float 5%Z (three_processes []).

(** ** The event handlers that run to completion

    The handlers below contain no yield and start no background task.  Their
    own log lines are kept in a second list, the notices of the server, each
    with the number of engine events emitted before it, so that the order of
    the whole trace is kept. *)

Inductive Notice :=
| NoteAdded (name : string)
| NoteRemoved (name : string)
| NotePaused
| NoteResumed
| NoteStopped
| NoteReset.

Record Server := mkServer {
  world : World;
  notices : list (nat * Notice * LogType)
}.

Definition set_world (w : World) (s : Server) : Server :=
  mkServer w (notices s).

(** [emit('log', ..., broadcast=True)] of a handler. *)
Definition notify (n : Notice) (t : LogType) (s : Server) : Server :=
  mkServer (world s) (notices s ++ [(length (emitted (world s)), n, t)]).

(** How a handler ends: it returns, or reading an attribute of [None]
    raises. *)
Inductive Handled :=
| Done (s : Server)
| AttributeError (s : Server).

Definition server_of (h : Handled) : Server :=
  match h with
  | Done s => s
  | AttributeError s => s
  end.

Definition handle_add_process (env : Env) (name : option string) (s : Server)
  : Handled :=
  let '(w, k) := add_process env name (world s) in
  let s := set_world (emit_update w) s in
  match get_process (ctrl (world s)) k with
  | Some (_, process) => Done (notify (NoteAdded (custom_name process)) log_info s)
  | None => AttributeError s
  end.

Definition handle_remove_process (k : Z) (s : Server) : Server :=
  match get_process (ctrl (world s)) k with
  | Some (_, process) =>
      let name := custom_name process in
      let s := set_world (emit_update (remove_process k (world s))) s in
      notify (NoteRemoved name) log_error s
  | None => s
  end.

Definition handle_step_forward (env : Env) (w : World) : Outcome :=
  if negb (is_running (ctrl w)) || is_paused (ctrl w)
  then step_computation env w
  else Returned w.

Definition handle_pause (s : Server) : Server :=
  let c := ctrl (world s) in
  let c := mkController (processes c) (next_pid c) (is_running c) true
             (auto_mode c) (computation_speed c) (checkpoint_frequency c)
             (step_count c) in
  notify NotePaused log_info (set_world (set_ctrl c (world s)) s).

Definition handle_resume (s : Server) : Server :=
  let c := ctrl (world s) in
  let c := mkController (processes c) (next_pid c) (is_running c) false
             (auto_mode c) (computation_speed c) (checkpoint_frequency c)
             (step_count c) in
  notify NoteResumed log_info (set_world (set_ctrl c (world s)) s).

Definition handle_stop (s : Server) : Server :=
  let c := ctrl (world s) in
  let c := mkController (processes c) (next_pid c) false false false
             (computation_speed c) (checkpoint_frequency c) (step_count c) in
  notify NoteStopped log_error (set_world (set_ctrl c (world s)) s).

Definition handle_reset (s : Server) : Server :=
  let c := ctrl (world s) in
  let c := mkController [] 0%Z false false false
             (computation_speed c) (checkpoint_frequency c) 0%Z in
  let s := set_world (emit_update (set_ctrl c (world s))) s in
  notify NoteReset log_info s.

(** ** More observations *)

(** What neither protocol changes in a process but the state dict and the
    counters, which a recovery restores. *)
Definition identity (p : Process) : Z * string * Z * Z * Z :=
  (pid p, custom_name p, num_processes p, messages_sent p, messages_received p).

(** What a checkpoint captures. *)
Definition captured (p : Process) : State * gmap Z Z * gmap Z Z :=
  (state p, sent_counter p, rcvd_counter p).

Definition snapshot (c : Checkpoint) : State * gmap Z Z * gmap Z Z :=
  (ckpt_state c, ckpt_sent_counter c, ckpt_rcvd_counter c).

(** A history entry as [commit_checkpoint] leaves it: permanent, taken by the
    process that holds it. *)
Definition own_permanent (p : Process) (c : Checkpoint) : Prop :=
  ckpt_type c = permanent /\ ckpt_pid c = pid p.

Definition histories_ok (w : World) : Prop :=
  Forall (fun p => Forall (own_permanent p) (checkpoints p)) (procs w).

(** The pids of the collection are below [next_pid]. *)
Definition pids_below (w : World) : Prop :=
  Forall (fun p => (pid p < next_pid (ctrl w))%Z) (procs w).

(** How many logged messages satisfy [P]. *)
Definition logged_if (P : Message -> bool) (w : World) : nat :=
  length (List.filter
            (fun e => match e with EvLog m _ => P m | EvUpdate _ => false end)
            (emitted w)).

Definition is_tentative_line (m : Message) : bool :=
  match m with MsgTentative _ _ _ => true | _ => false end.

Definition is_committed_line (m : Message) : bool :=
  match m with MsgCommitted _ _ => true | _ => false end.

(** The id and the timestamp of the [j]-th checkpoint taken from the world
    [w] on. *)
Definition fresh_stamp (env : Env) (w : World) (j : nat) : string * float :=
  (String.substring 0 8 (uuid4 env (uuids w + j)), time_time env (ticks w + j)).

Definition stamp (c : Checkpoint) : string * float :=
  (checkpoint_id c, ckpt_timestamp c).

(** What one [simulate_computation] call shows on a process: one that is
    failed keeps its state dict and its message counts; on any other the step
    of the state dict grows by 1 and each message count by 0 or 1. *)
Definition stepped (p p' : Process) : Prop :=
  if is_failed p then progress p' = progress p
  else
    computation_step (state p') = (computation_step (state p) + 1)%Z /\
    (messages_sent p <= messages_sent p' <= messages_sent p + 1)%Z /\
    (messages_received p <= messages_received p' <= messages_received p + 1)%Z.

(** What [step_computation] leaves alone when it starts no checkpoint run. *)
Definition standing (p : Process)
  : Z * string * list Checkpoint * bool * Status * option CheckpointKind :=
  (pid p, custom_name p, checkpoints p, is_failed p, status p, checkpoint_type p).

(** The three processes after one checkpoint run, pid 1 failed; the failure
    of pid 0 will arrive at the second yield from now. *)
Definition failure_during_recovery : World :=
  set_arrivals [[]; [0%Z]]
    (handle_trigger_failure 1 (initiate_checkpoint sample_env (three_processes [])).1).

(** The number of [Add] operations of a sequence. *)
Definition adds (ops : list Op) : nat :=
  length (List.filter (fun o => match o with Add _ => true | Remove _ => false end) ops).

(** * Properties *)

(** ** Basic facts *)

Lemma logged_emit_log m m' t w :
  logged m (emit_log m' t w) = logged m w + (if bool_decide (m' = m) then 1 else 0).
Proof.
  unfold logged, emit_log, emit. simpl.
  rewrite List.filter_app, length_app. simpl.
  destruct (bool_decide (m' = m)); reflexivity.
Qed.

Lemma logged_emit_other m m' t w :
  marker m = true -> marker m' = false -> logged m (emit_log m' t w) = logged m w.
Proof.
  intros Hm Hm'. rewrite logged_emit_log.
  rewrite bool_decide_eq_false_2; [lia|]. intros ->. congruence.
Qed.

Lemma logged_emit_update m w : logged m (emit_update w) = logged m w.
Proof.
  unfold logged, emit_update, emit. simpl.
  rewrite List.filter_app, length_app. simpl. lia.
Qed.

Lemma logged_update_process m i g w : logged m (update_process i g w) = logged m w.
Proof. reflexivity. Qed.

Lemma logged_handle_trigger_failure m k w :
  marker m = true -> logged m (handle_trigger_failure k w) = logged m w.
Proof.
  intros Hm. unfold handle_trigger_failure.
  destruct (get_process (ctrl w) k) as [[i p]|]; [|reflexivity].
  destruct (is_failed p); [reflexivity|].
  rewrite logged_emit_other, logged_emit_update by done. reflexivity.
Qed.

Lemma logged_failures m ks w :
  marker m = true ->
  logged m (fold_left (fun w k => handle_trigger_failure k w) ks w) = logged m w.
Proof.
  intros Hm. revert w. induction ks as [|k ks IH]; intros w; simpl; [reflexivity|].
  rewrite IH. by apply logged_handle_trigger_failure.
Qed.

Lemma logged_sleep m w : marker m = true -> logged m (sleep w) = logged m w.
Proof.
  intros Hm. unfold sleep. destruct (arrivals w) as [|now later]; [reflexivity|].
  by rewrite logged_failures.
Qed.

Lemma sleep_idle w : arrivals w = [] -> sleep w = w.
Proof. unfold sleep. by intros ->. Qed.

Lemma procs_update_process i g w :
  procs (update_process i g w) = alter g i (procs w).
Proof. reflexivity. Qed.

Lemma procs_emit e w : procs (emit e w) = procs w.
Proof. reflexivity. Qed.

Lemma length_update_process i g w :
  length (procs (update_process i g w)) = length (procs w).
Proof. rewrite procs_update_process. apply length_alter. Qed.

Lemma length_handle_trigger_failure k w :
  length (procs (handle_trigger_failure k w)) = length (procs w).
Proof.
  unfold handle_trigger_failure.
  destruct (get_process (ctrl w) k) as [[i p]|]; [|reflexivity].
  destruct (is_failed p); [reflexivity|].
  change (length (procs (update_process i simulate_failure w)) = length (procs w)).
  apply length_update_process.
Qed.

Lemma length_sleep w : length (procs (sleep w)) = length (procs w).
Proof.
  unfold sleep. destruct (arrivals w) as [|now later]; [reflexivity|].
  change (procs w) with (procs (set_arrivals later w)).
  generalize (set_arrivals later w). clear w.
  induction now as [|k ks IH]; intros w; simpl; [reflexivity|].
  rewrite IH. apply length_handle_trigger_failure.
Qed.

(** ** Frame: what a projection of the processes keeps through the steps that
    only touch [status], [checkpoint_type] and [is_failed] *)

Section Frame.

Context {A : Type} (f : Process -> A).
Hypothesis f_status : forall s p, f (set_status s p) = f p.
Hypothesis f_kind : forall k p, f (set_checkpoint_type k p) = f p.
Hypothesis f_failed : forall b p, f (set_is_failed b p) = f p.

#[local] Abbreviation view := (view f).

Lemma view_emit_log m t w : view (emit_log m t w) = view w.
Proof. reflexivity. Qed.

Lemma view_emit_update w : view (emit_update w) = view w.
Proof. reflexivity. Qed.

Lemma view_update_process i g w :
  (forall p, f (g p) = f p) -> view (update_process i g w) = view w.
Proof.
  intros Hg. unfold view. rewrite procs_update_process.
  apply list_eq. intros j. rewrite !list_lookup_fmap.
  destruct (decide (i = j)) as [->|Hij].
  - rewrite list_lookup_alter_eq. destruct (procs w !! j); simpl; [|done].
    by rewrite Hg.
  - by rewrite list_lookup_alter_ne.
Qed.

Lemma view_handle_trigger_failure k w : view (handle_trigger_failure k w) = view w.
Proof.
  unfold handle_trigger_failure.
  destruct (get_process (ctrl w) k) as [[i p]|]; [|reflexivity].
  destruct (is_failed p); [reflexivity|].
  change (view (update_process i simulate_failure w) = view w).
  apply view_update_process. intros q. unfold simulate_failure.
  by rewrite f_status, f_failed.
Qed.

Lemma view_sleep w : view (sleep w) = view w.
Proof.
  unfold sleep. destruct (arrivals w) as [|now later]; [reflexivity|].
  change (view w) with (view (set_arrivals later w)).
  generalize (set_arrivals later w). clear w.
  induction now as [|k ks IH]; intros w; simpl; [reflexivity|].
  rewrite IH. apply view_handle_trigger_failure.
Qed.

Lemma view_tentative_step env i st : view (tentative_step env i st).1 = view st.1.
Proof.
  destruct st as [w acc]. unfold tentative_step.
  destruct (procs w !! i) as [p|] eqn:Hp; [|reflexivity].
  destruct (is_failed p); [reflexivity|]. simpl.
  rewrite view_sleep.
  match goal with
  | |- view (emit_log _ _ (emit_update (update_process i ?g ?w0))) = _ =>
      change (view (update_process i g w0) = view w)
  end.
  unfold view. rewrite procs_update_process.
  change (procs (set_ticks _ _)) with (procs w).
  apply list_eq. intros j. rewrite !list_lookup_fmap.
  destruct (decide (i = j)) as [->|Hij].
  - rewrite list_lookup_alter_eq, Hp. simpl. by rewrite f_kind, f_status.
  - by rewrite list_lookup_alter_ne.
Qed.

Lemma view_tentative_loop env idxs st :
  view (tentative_loop env idxs st).1 = view st.1.
Proof.
  revert st. induction idxs as [|i idxs IH]; intros st; simpl; [reflexivity|].
  unfold tentative_loop in *. simpl. rewrite IH. apply view_tentative_step.
Qed.

Lemma view_phase1 env w : view (phase1 env w).1 = view w.
Proof.
  unfold phase1, phase1_start. rewrite view_tentative_loop.
  change (view (sleep (emit_log MsgPhase1 log_checkpoint w)) = view w).
  by rewrite view_sleep.
Qed.

Lemma view_abort_loop tent w : view (fold_left abort_step tent w) = view w.
Proof.
  revert w. induction tent as [|x tent IH]; intros w; simpl; [reflexivity|].
  rewrite IH. unfold abort_step. apply view_update_process.
  intros p. unfold abort_checkpoint. by rewrite f_kind, f_status.
Qed.

Lemma view_finalize w : view (set_procs (finalize <$> procs w) w) = view w.
Proof.
  unfold view. change (procs (set_procs ?l _)) with l.
  rewrite <- list_fmap_compose.
  apply list_fmap_ext. intros j p _. simpl. unfold finalize.
  destruct (is_failed p); [reflexivity|]. by rewrite f_kind, f_status.
Qed.

(** With a projection that [commit_checkpoint] keeps as well, the whole run. *)
Lemma view_commit_loop tent w :
  (forall l p, f (set_checkpoints l p) = f p) ->
  view (fold_left (commit_step) tent w) = view w.
Proof.
  intros Hc. revert w. induction tent as [|[i ck] tent IH]; intros w; simpl;
    [reflexivity|].
  rewrite IH. destruct (procs w !! i) as [p|]; [|reflexivity].
  rewrite view_sleep.
  change (view (update_process i (commit_checkpoint ck) w) = view w).
  apply view_update_process. intros q. unfold commit_checkpoint.
  by rewrite f_kind, Hc.
Qed.

Lemma view_initiate_checkpoint env w :
  (forall l p, f (set_checkpoints l p) = f p) ->
  view (initiate_checkpoint env w).1 = view w.
Proof.
  intros Hc. unfold initiate_checkpoint.
  destruct (phase1 env w) as [w1 tent] eqn:Hph. simpl.
  change (view (set_procs (finalize <$>
            procs (sleep (phase2 (all_acks (sleep w1) tent) (sleep w1) tent)))
            (sleep (phase2 (all_acks (sleep w1) tent) (sleep w1) tent))) = view w).
  rewrite view_finalize, view_sleep.
  assert (view w1 = view w) as Hw1.
  { pose proof (view_phase1 env w) as H. by rewrite Hph in H. }
  unfold phase2. destruct (all_acks (sleep w1) tent).
  - by rewrite view_commit_loop, view_sleep, view_emit_log, view_sleep.
  - by rewrite view_abort_loop, view_emit_log, view_sleep.
Qed.

End Frame.

(** ** Phase 1: who is collected *)

Lemma tentative_step_collected env i w acc :
  (tentative_step env i (w, acc)).2.*1
  = acc.*1 ++ (if alive w i then [i] else []).
Proof.
  unfold tentative_step, alive.
  destruct (procs w !! i) as [p|]; simpl; [|by rewrite app_nil_r].
  destruct (is_failed p); simpl; [by rewrite app_nil_r|].
  by rewrite fmap_app.
Qed.

Lemma tentative_loop_collected env idxs st :
  exists l, (tentative_loop env idxs st).2.*1 = st.2.*1 ++ l /\ sublist l idxs.
Proof.
  revert st. induction idxs as [|i idxs IH]; intros st.
  - exists []. simpl. by rewrite app_nil_r.
  - unfold tentative_loop in *. simpl.
    destruct (IH (tentative_step env i st)) as (l & Hl & Hsub).
    destruct st as [w acc]. rewrite Hl, tentative_step_collected.
    simpl. rewrite <- app_assoc.
    destruct (alive w i).
    + exists (i :: l). split; [done|]. by apply sublist_skip.
    + exists l. split; [done|]. by apply sublist_cons.
Qed.

Lemma phase1_collected_sublist env w :
  sublist (phase1 env w).2.*1 (seq 0 (length (procs w))).
Proof.
  unfold phase1.
  destruct (tentative_loop_collected env
              (seq 0 (length (procs (phase1_start w)))) (phase1_start w, []))
    as (l & Hl & Hsub).
  rewrite Hl. simpl.
  unfold phase1_start in Hsub. by rewrite length_sleep in Hsub.
Qed.

Lemma phase1_collected_NoDup env w : NoDup (phase1 env w).2.*1.
Proof.
  eapply sublist_NoDup; [|apply phase1_collected_sublist]; apply NoDup_seq.
Qed.

Lemma length_view {A} (f : Process -> A) w : length (view f w) = length (procs w).
Proof. apply length_fmap. Qed.

Lemma length_tentative_loop env idxs st :
  length (procs (tentative_loop env idxs st).1) = length (procs st.1).
Proof.
  rewrite <- !(length_view checkpoints). f_equal.
  by apply view_tentative_loop.
Qed.

Lemma tentative_loop_app env l1 l2 st :
  tentative_loop env (l1 ++ l2) st = tentative_loop env l2 (tentative_loop env l1 st).
Proof. apply fold_left_app. Qed.

Lemma tentative_loop_cons env i l st :
  tentative_loop env (i :: l) st = tentative_loop env l (tentative_step env i st).
Proof. reflexivity. Qed.

(** The collected positions are exactly the participants. *)
Lemma phase1_collects env w i :
  i ∈ (phase1 env w).2.*1 <-> participant env w i = true.
Proof.
  unfold participant, at_turn, phase1.
  set (w0 := phase1_start w). set (n := length (procs w0)).
  destruct (decide (i < n)) as [Hi|Hi].
  - replace n with (i + (1 + (n - S i))) by lia.
    rewrite !seq_app. change (seq (0 + i) 1) with [i].
    rewrite !tentative_loop_app.
    change (tentative_loop env [i] ?s) with (tentative_step env i s).
    destruct (tentative_loop_collected env (seq 0 i) (w0, [])) as (l1 & Hl1 & Hsub1).
    destruct (tentative_loop env (seq 0 i) (w0, [])) as [w1 acc1] eqn:H1.
    simpl in Hl1.
    destruct (tentative_loop_collected env (seq (0 + i + 1) (n - S i))
                (tentative_step env i (w1, acc1))) as (l2 & Hl2 & Hsub2).
    rewrite Hl2, tentative_step_collected, Hl1.
    assert (i ∉ l1) as Hn1.
    { intros Hin. eapply elem_of_sublist in Hin; [|exact Hsub1].
      apply elem_of_seq in Hin. lia. }
    assert (i ∉ l2) as Hn2.
    { intros Hin. eapply elem_of_sublist in Hin; [|exact Hsub2].
      apply elem_of_seq in Hin. lia. }
    rewrite !elem_of_app. simpl. destruct (alive w1 i).
    + split; [done|]. intros _. left. right. by apply list_elem_of_singleton.
    + split; [|done]. intros [[?|Hin]|?]; [done| |done]. by apply elem_of_nil in Hin.
  - split.
    + intros Hin. eapply elem_of_sublist in Hin;
        [|apply (phase1_collected_sublist env w)].
      apply elem_of_seq in Hin.
      unfold n, w0, phase1_start in Hi. rewrite length_sleep in Hi.
      change (procs (emit_log _ _ w)) with (procs w) in Hi. lia.
    + unfold alive. rewrite lookup_ge_None_2; [done|].
      rewrite length_tentative_loop. simpl. fold n. lia.
Qed.

(** ** Phase 2: the histories *)

Lemma view_commit_step w x :
  view checkpoints (commit_step w x)
  = alter (fun l => l ++ [set_ckpt_type permanent x.2]) x.1 (view checkpoints w).
Proof.
  destruct x as [i ck]. unfold commit_step. simpl.
  destruct (procs w !! i) as [p|] eqn:Hp.
  - rewrite view_sleep by done.
    change (view checkpoints (update_process i (commit_checkpoint ck) w) = 
            alter (fun l => l ++ [set_ckpt_type permanent ck]) i (view checkpoints w)).
    unfold view. rewrite procs_update_process.
    apply list_fmap_alter. apply Forall_forall. done.
  - symmetry. apply list_eq. intros j. unfold view.
    destruct (decide (i = j)) as [->|Hij].
    + by rewrite list_lookup_alter_eq, list_lookup_fmap, Hp.
    + by rewrite list_lookup_alter_ne.
Qed.

Lemma view_commit_loop_histories tent w :
  view checkpoints (fold_left commit_step tent w)
  = committed tent (view checkpoints w).
Proof.
  revert w. induction tent as [|x tent IH]; intros w; simpl; [reflexivity|].
  unfold committed. simpl. rewrite IH, view_commit_step. reflexivity.
Qed.

Lemma committed_lookup tent h i l :
  NoDup tent.*1 -> h !! i = Some l ->
  exists ck,
    committed tent h !! i = Some (l ++ ck) /\
    ck = (fun x => set_ckpt_type permanent x.2) <$> filter (fun x => x.1 = i) tent /\
    length ck = if bool_decide (i ∈ tent.*1) then 1 else 0.
Proof.
  revert h l. induction tent as [|[j c] tent IH]; intros h l Hnd Hl.
  - exists []. simpl. rewrite app_nil_r. done.
  - simpl in Hnd. apply NoDup_cons in Hnd as [Hj Hnd].
    change (committed ((j, c) :: tent) h) with
      (committed tent (alter (fun l0 => l0 ++ [set_ckpt_type permanent c]) j h)).
    destruct (decide (j = i)) as [->|Hji].
    + edestruct (IH (alter (fun l0 => l0 ++ [set_ckpt_type permanent c]) i h))
        as (ck & Hck & Hf & Hlen); [done| |].
      { rewrite list_lookup_alter_eq, Hl. simpl. reflexivity. }
      exists (set_ckpt_type permanent c :: ck). split; [|split].
      * rewrite Hck. by rewrite <- app_assoc.
      * rewrite filter_cons_True by done. simpl. by rewrite Hf.
      * rewrite bool_decide_eq_false_2 in Hlen by done.
        change (((i, c) :: tent).*1) with (i :: tent.*1).
        rewrite bool_decide_eq_true_2 by left.
        simpl. lia.
    + edestruct (IH (alter (fun l0 => l0 ++ [set_ckpt_type permanent c]) j h))
        as (ck & Hck & Hf & Hlen); [done| |].
      { rewrite list_lookup_alter_ne by done. exact Hl. }
      exists ck. split; [done|]. split.
      * rewrite filter_cons_False by done. done.
      * rewrite Hlen. change (((j, c) :: tent).*1) with (j :: tent.*1).
        assert (bool_decide (i ∈ j :: tent.*1) = bool_decide (i ∈ tent.*1)) as ->;
          [|done].
        apply bool_decide_ext. rewrite elem_of_cons.
        split; [intros [Heq|?]; [by subst|done]|by right].
Qed.

Lemma initiate_checkpoint_result env w :
  (initiate_checkpoint env w).2 = all_acks (at_decision env w) (phase1 env w).2.
Proof.
  unfold initiate_checkpoint, at_decision.
  by destruct (phase1 env w) as [w1 tent].
Qed.

(** The histories after a run: those of the collected pairs grow on the
    Commit path, none changes on the Abort path. *)
Lemma initiate_checkpoint_histories env w :
  view checkpoints (initiate_checkpoint env w).1
  = if (initiate_checkpoint env w).2
    then committed (phase1 env w).2 (view checkpoints w)
    else view checkpoints w.
Proof.
  pose proof (view_phase1 checkpoints (fun _ _ => eq_refl) (fun _ _ => eq_refl)
                (fun _ _ => eq_refl) env w) as Hph.
  unfold initiate_checkpoint.
  destruct (phase1 env w) as [w1 tent]. simpl fst in *. simpl snd.
  set (b := all_acks (sleep w1) tent).
  change (view checkpoints (set_procs (finalize <$> procs (sleep (phase2 b (sleep w1) tent)))
            (sleep (phase2 b (sleep w1) tent)))
          = if b then committed tent (view checkpoints w) else view checkpoints w).
  rewrite view_finalize, view_sleep by done.
  unfold phase2. destruct b.
  - rewrite view_commit_loop_histories, view_sleep, view_emit_log, view_sleep by done.
    by rewrite Hph.
  - rewrite view_abort_loop, view_emit_log, view_sleep by done. exact Hph.
Qed.

(** C1. One run of [initiate_checkpoint], whatever failures arrive while it
    sleeps: either it returns [true] and the history of every process grows by
    exactly one entry if the process is a participant (not failed when its
    phase-1 turn comes) and does not grow otherwise, or it returns [false] and
    no history changes at all. *)
Theorem checkpoint_all_or_nothing env w :
  ((initiate_checkpoint env w).2 = true /\
   forall i p, procs w !! i = Some p ->
     exists p', procs (initiate_checkpoint env w).1 !! i = Some p' /\
       length (checkpoints p')
       = length (checkpoints p) + (if participant env w i then 1 else 0))
  \/
  ((initiate_checkpoint env w).2 = false /\
   forall i p, procs w !! i = Some p ->
     exists p', procs (initiate_checkpoint env w).1 !! i = Some p' /\
       checkpoints p' = checkpoints p).
Proof.
  pose proof (initiate_checkpoint_histories env w) as Hh.
  destruct (initiate_checkpoint env w).2; [left|right]; (split; [done|]);
    intros i p Hp.
  - destruct (committed_lookup (phase1 env w).2 (view checkpoints w) i (checkpoints p))
      as (ck & Hck & _ & Hlen).
    { apply phase1_collected_NoDup. }
    { unfold view. by rewrite list_lookup_fmap, Hp. }
    rewrite <- Hh in Hck. unfold view in Hck.
    rewrite list_lookup_fmap in Hck. apply fmap_Some in Hck as (p' & Hp' & Hc).
    exists p'. split; [done|]. rewrite <- Hc, length_app, Hlen.
    f_equal. destruct (participant env w i) eqn:Hpart.
    + rewrite bool_decide_eq_true_2; [done|]. by apply phase1_collects.
    + rewrite bool_decide_eq_false_2; [done|].
      rewrite phase1_collects. congruence.
  - assert (view checkpoints (initiate_checkpoint env w).1 !! i = Some (checkpoints p))
      as Hv.
    { rewrite Hh. unfold view. by rewrite list_lookup_fmap, Hp. }
    unfold view in Hv. rewrite list_lookup_fmap in Hv.
    apply fmap_Some in Hv as (p' & Hp' & Hc). exists p'. by split.
Qed.

(** ** The markers logged by a run *)

Lemma logged_tentative_step m env i st :
  marker m = true -> logged m (tentative_step env i st).1 = logged m st.1.
Proof.
  intros Hm. destruct st as [w acc]. unfold tentative_step.
  destruct (procs w !! i) as [p|]; [|reflexivity].
  destruct (is_failed p); [reflexivity|]. simpl fst.
  by rewrite logged_sleep, logged_emit_other, logged_emit_update.
Qed.

Lemma logged_tentative_loop m env idxs st :
  marker m = true -> logged m (tentative_loop env idxs st).1 = logged m st.1.
Proof.
  intros Hm. revert st. induction idxs as [|i idxs IH]; intros st; [reflexivity|].
  rewrite tentative_loop_cons, IH. by apply logged_tentative_step.
Qed.

Lemma logged_commit_loop m tent w :
  marker m = true -> logged m (fold_left commit_step tent w) = logged m w.
Proof.
  intros Hm. revert w. induction tent as [|[i ck] tent IH]; intros w; simpl;
    [reflexivity|].
  rewrite IH. destruct (procs w !! i) as [p|]; [|reflexivity].
  by rewrite logged_sleep, logged_emit_other, logged_emit_update.
Qed.

Lemma logged_abort_loop m tent w :
  logged m (fold_left abort_step tent w) = logged m w.
Proof.
  revert w. induction tent as [|x tent IH]; intros w; simpl; [reflexivity|].
  by rewrite IH.
Qed.

(** A run logs the phase-1 marker once, and then the marker of the branch it
    takes, once. *)
Lemma logged_initiate_checkpoint m env w :
  marker m = true ->
  logged m (initiate_checkpoint env w).1
  = logged m w
    + (if bool_decide (MsgPhase1 = m) then 1 else 0)
    + (if bool_decide
            ((if (initiate_checkpoint env w).2 then MsgCommitting else MsgAborted) = m)
       then 1 else 0).
Proof.
  intros Hm. unfold initiate_checkpoint.
  assert (logged m (phase1 env w).1
          = logged m w + (if bool_decide (MsgPhase1 = m) then 1 else 0)) as Hph.
  { unfold phase1, phase1_start. rewrite logged_tentative_loop by done.
    simpl fst. by rewrite logged_sleep, logged_emit_log. }
  destruct (phase1 env w) as [w1 tent]. simpl fst in Hph. simpl snd.
  set (b := all_acks (sleep w1) tent).
  change (logged m (emit_update (set_procs (finalize <$> procs (sleep (phase2 b (sleep w1) tent)))
            (sleep (phase2 b (sleep w1) tent))))
          = logged m w + (if bool_decide (MsgPhase1 = m) then 1 else 0)
            + (if bool_decide ((if b then MsgCommitting else MsgAborted) = m)
               then 1 else 0)).
  rewrite logged_emit_update.
  change (logged m (set_procs ?l ?x)) with (logged m x).
  rewrite logged_sleep by done. unfold phase2. destruct b.
  - by rewrite logged_commit_loop, logged_sleep, logged_emit_log, logged_sleep, Hph.
  - by rewrite logged_abort_loop, logged_emit_log, logged_sleep, Hph.
Qed.

(** ** Runs without arrivals *)

Lemma fold_alter_all {A} (g : A -> A) (l1 l2 : list A) :
  fold_left (fun l i => alter g i l) (seq (length l1) (length l2)) (l1 ++ l2)
  = l1 ++ (g <$> l2).
Proof.
  revert l1. induction l2 as [|x l2 IH]; intros l1; [reflexivity|].
  simpl. replace (length l1) with (length l1 + 0) at 2 by lia.
  rewrite alter_app_r. simpl.
  specialize (IH (l1 ++ [g x])). rewrite length_app in IH. simpl in IH.
  replace (length l1 + 1) with (S (length l1)) in IH by lia.
  rewrite <- !app_assoc in IH. exact IH.
Qed.

(** A loop over all positions whose iteration [i] applies [g] at position [i]
    applies [g] everywhere. *)
Lemma loop_alter_all {St A} (step : St -> nat -> St) (proj : St -> list A)
    (P : St -> Prop) (g : A -> A) :
  (forall s i, P s -> P (step s i) /\ proj (step s i) = alter g i (proj s)) ->
  forall s, P s ->
    P (fold_left step (seq 0 (length (proj s))) s) /\
    proj (fold_left step (seq 0 (length (proj s))) s) = g <$> proj s.
Proof.
  intros Hstep.
  assert (forall idxs s, P s ->
            P (fold_left step idxs s) /\
            proj (fold_left step idxs s)
            = fold_left (fun l i => alter g i l) idxs (proj s)) as Hloop.
  { induction idxs as [|i idxs IH]; intros s Hs; [done|]. simpl.
    destruct (Hstep s i Hs) as [HP Heq].
    destruct (IH _ HP) as [HP' Heq']. split; [done|]. by rewrite Heq', Heq. }
  intros s Hs. destruct (Hloop (seq 0 (length (proj s))) s Hs) as [HP Heq].
  split; [done|]. rewrite Heq. apply (fold_alter_all g [] (proj s)).
Qed.

Lemma tentative_step_idle env i st :
  arrivals st.1 = [] ->
  arrivals (tentative_step env i st).1 = [] /\
  procs (tentative_step env i st).1 = alter tentative_mark i (procs st.1).
Proof.
  destruct st as [w acc]. simpl. intros Hidle. unfold tentative_step.
  destruct (procs w !! i) as [p|] eqn:Hp.
  - destruct (is_failed p) eqn:Hf; simpl fst.
    + split; [done|]. apply list_eq. intros j.
      destruct (decide (i = j)) as [->|Hij].
      * rewrite list_lookup_alter_eq, Hp. simpl. unfold tentative_mark. by rewrite Hf.
      * by rewrite list_lookup_alter_ne.
    + rewrite sleep_idle by done. split; [done|].
      change (procs (emit_log ?m ?t (emit_update ?x))) with (procs x).
      rewrite procs_update_process.
      change (procs (set_ticks _ _)) with (procs w).
      apply list_eq. intros j.
      destruct (decide (i = j)) as [->|Hij].
      * rewrite !list_lookup_alter_eq, Hp. simpl. unfold tentative_mark. by rewrite Hf.
      * by rewrite !list_lookup_alter_ne.
  - split; [done|]. simpl. apply list_eq. intros j.
    destruct (decide (i = j)) as [->|Hij].
    + by rewrite list_lookup_alter_eq, Hp.
    + by rewrite list_lookup_alter_ne.
Qed.

Lemma is_failed_tentative_mark p : is_failed (tentative_mark p) = is_failed p.
Proof. unfold tentative_mark. by destruct (is_failed p) eqn:Hf. Qed.

Lemma tentative_loop_idle env idxs st :
  arrivals st.1 = [] ->
  arrivals (tentative_loop env idxs st).1 = [] /\
  view is_failed (tentative_loop env idxs st).1 = view is_failed st.1.
Proof.
  revert st. induction idxs as [|i idxs IH]; intros st Hidle; [done|].
  rewrite tentative_loop_cons.
  destruct (tentative_step_idle env i st Hidle) as [Hidle' Hprocs].
  destruct (IH _ Hidle') as [Ha Hv]. split; [done|].
  rewrite Hv. unfold view. rewrite Hprocs.
  rewrite (list_fmap_alter is_failed tentative_mark id).
  - by apply list_alter_id.
  - apply Forall_forall. intros p _. apply is_failed_tentative_mark.
Qed.

Lemma length_filter_flags (l l' : list Process) :
  is_failed <$> l = is_failed <$> l' ->
  length (filter (fun p => is_failed p = false) l)
  = length (filter (fun p => is_failed p = false) l').
Proof.
  revert l'. induction l as [|p l IH]; intros [|p' l'] Heq; try done.
  simpl in Heq. injection Heq as Hp Hl.
  rewrite !filter_cons. rewrite <- Hp.
  destruct (decide (is_failed p = false)); simpl; by rewrite (IH l').
Qed.

Lemma tentative_loop_idle_count env l1 l2 st :
  arrivals st.1 = [] ->
  view is_failed st.1 = is_failed <$> (l1 ++ l2) ->
  length (tentative_loop env (seq (length l1) (length l2)) st).2
  = length st.2 + length (filter (fun p => is_failed p = false) l2).
Proof.
  revert l1 st. induction l2 as [|p l2 IH]; intros l1 st Hidle Hv.
  - simpl. lia.
  - simpl seq. rewrite tentative_loop_cons.
    destruct (tentative_loop_idle env [length l1] st Hidle) as [Hidle' Hv'].
    change (tentative_loop env [length l1] st)
      with (tentative_step env (length l1) st) in *.
    specialize (IH (l1 ++ [p]) (tentative_step env (length l1) st) Hidle').
    rewrite length_app in IH. simpl in IH.
    replace (length l1 + 1) with (S (length l1)) in IH by lia.
    rewrite IH by (by rewrite Hv', Hv, <- app_assoc).
    assert (length (tentative_step env (length l1) st).2
            = length st.2 + (if is_failed p then 0 else 1)) as ->.
    { destruct st as [w acc].
      rewrite <- (length_fmap fst), tentative_step_collected, length_app, length_fmap.
      f_equal. unfold alive.
      assert ((is_failed <$> procs w) !! length l1 = Some (is_failed p)) as Hl.
      { simpl in Hv. unfold view in Hv. rewrite Hv, fmap_app.
        rewrite lookup_app_r by (by rewrite length_fmap).
        by rewrite length_fmap, Nat.sub_diag. }
      rewrite list_lookup_fmap in Hl. apply fmap_Some in Hl as (q & -> & ->).
      by destruct (is_failed q). }
    rewrite filter_cons.
    destruct (decide (is_failed p = false)) as [Hf|Hf].
    + rewrite Hf. simpl. lia.
    + destruct (is_failed p); [simpl; lia|done].
Qed.

(** Without arrivals phase 1 collects one pair per non-failed process and
    changes no failure flag. *)
Lemma phase1_idle env w :
  arrivals w = [] ->
  arrivals (phase1 env w).1 = [] /\
  view is_failed (phase1 env w).1 = view is_failed w /\
  length (phase1 env w).2 = length (non_failed w).
Proof.
  intros Hidle. unfold phase1, phase1_start.
  rewrite sleep_idle by done.
  set (w0 := emit_log MsgPhase1 log_checkpoint w).
  assert (arrivals (w0, @nil (nat * Checkpoint)).1 = []) as Hidle0 by done.
  destruct (tentative_loop_idle env (seq 0 (length (procs w0))) _ Hidle0) as [Ha Hv].
  split; [done|]. split; [done|].
  rewrite (tentative_loop_idle_count env [] (procs w0)); done.
Qed.

Lemma alive_flags w w' i :
  view is_failed w = view is_failed w' -> alive w i = alive w' i.
Proof.
  intros H. unfold alive.
  assert ((is_failed <$> procs w) !! i = (is_failed <$> procs w') !! i) as Hi
    by (unfold view in H; by rewrite H).
  rewrite !list_lookup_fmap in Hi.
  destruct (procs w !! i), (procs w' !! i); simpl in *; congruence.
Qed.

(** Without arrivals the participants are the processes not failed when the
    run starts. *)
Lemma participant_idle env w i :
  arrivals w = [] -> participant env w i = alive w i.
Proof.
  intros Hidle. unfold participant, at_turn, phase1_start.
  rewrite sleep_idle by done.
  set (w0 := emit_log MsgPhase1 log_checkpoint w).
  assert (arrivals (w0, @nil (nat * Checkpoint)).1 = []) as Hidle0 by done.
  destruct (tentative_loop_idle env (seq 0 i) _ Hidle0) as [_ Hv].
  by apply alive_flags.
Qed.

(** Without arrivals the decision finds as many pairs as non-failed
    processes. *)
Lemma initiate_checkpoint_idle env w :
  arrivals w = [] ->
  length (phase1 env w).2 = length (non_failed (at_decision env w)) /\
  (initiate_checkpoint env w).2 = true.
Proof.
  intros Hidle.
  destruct (phase1_idle env w Hidle) as (Ha & Hv & Hlen).
  assert (length (phase1 env w).2 = length (non_failed (at_decision env w))) as Heq.
  { unfold at_decision. rewrite sleep_idle by done. rewrite Hlen.
    unfold non_failed. symmetry. by apply length_filter_flags. }
  split; [done|]. rewrite initiate_checkpoint_result.
  unfold all_acks. by apply Nat.eqb_eq.
Qed.

(** C9. Without arrivals (the sequential reading of the code) the decision of
    [initiate_checkpoint] compares two counts of the same non-failed
    processes, those of the collection at the start of the run: the Abort
    branch is never taken and the call returns [true]. *)
Theorem checkpoint_never_aborts_when_idle env w :
  arrivals w = [] ->
  length (phase1 env w).2 = length (non_failed w) /\
  length (non_failed (at_decision env w)) = length (non_failed w) /\
  (initiate_checkpoint env w).2 = true.
Proof.
  intros Hidle.
  destruct (initiate_checkpoint_idle env w Hidle) as [Heq Hres].
  destruct (phase1_idle env w Hidle) as (_ & _ & Hlen).
  split; [done|]. split; [congruence|done].
Qed.

(** ** The settings of the controller through a run *)

Lemma config_emit_log m t w : config (emit_log m t w) = config w.
Proof. reflexivity. Qed.

Lemma config_handle_trigger_failure k w : config (handle_trigger_failure k w) = config w.
Proof.
  unfold handle_trigger_failure.
  destruct (get_process (ctrl w) k) as [[i p]|]; [|reflexivity].
  by destruct (is_failed p).
Qed.

Lemma config_sleep w : config (sleep w) = config w.
Proof.
  unfold sleep. destruct (arrivals w) as [|now later]; [reflexivity|].
  change (config w) with (config (set_arrivals later w)).
  generalize (set_arrivals later w). clear w.
  induction now as [|k ks IH]; intros w; simpl; [reflexivity|].
  rewrite IH. apply config_handle_trigger_failure.
Qed.

Lemma config_tentative_step env i st : config (tentative_step env i st).1 = config st.1.
Proof.
  destruct st as [w acc]. unfold tentative_step.
  destruct (procs w !! i) as [p|]; [|reflexivity].
  destruct (is_failed p); [reflexivity|]. simpl fst. by rewrite config_sleep.
Qed.

Lemma config_tentative_loop env idxs st :
  config (tentative_loop env idxs st).1 = config st.1.
Proof.
  revert st. induction idxs as [|i idxs IH]; intros st; [reflexivity|].
  rewrite tentative_loop_cons, IH. apply config_tentative_step.
Qed.

Lemma config_commit_loop tent w : config (fold_left commit_step tent w) = config w.
Proof.
  revert w. induction tent as [|[i ck] tent IH]; intros w; simpl; [reflexivity|].
  rewrite IH. destruct (procs w !! i) as [p|]; [|reflexivity].
  by rewrite config_sleep.
Qed.

Lemma config_abort_loop tent w : config (fold_left abort_step tent w) = config w.
Proof.
  revert w. induction tent as [|x tent IH]; intros w; simpl; [reflexivity|].
  by rewrite IH.
Qed.

Lemma config_initiate_checkpoint env w : config (initiate_checkpoint env w).1 = config w.
Proof.
  unfold initiate_checkpoint.
  assert (config (phase1 env w).1 = config w) as Hph.
  { unfold phase1, phase1_start. rewrite config_tentative_loop. simpl fst.
    by rewrite config_sleep. }
  destruct (phase1 env w) as [w1 tent]. simpl fst in Hph. simpl snd.
  set (b := all_acks (sleep w1) tent). simpl fst.
  change (config (sleep (phase2 b (sleep w1) tent)) = config w).
  rewrite config_sleep. unfold phase2. destruct b.
  - by rewrite config_commit_loop, config_sleep, config_emit_log, config_sleep.
  - by rewrite config_abort_loop, config_emit_log, config_sleep.
Qed.

(** ** The decision *)

(** C6, as the code has it.  [initiate_checkpoint] returns [true] iff the
    number of pairs collected in phase 1 equals the number of processes that
    are not failed when the decision is taken, after phase 1; no participation
    set is recorded when the run starts.  It returns [true] exactly when the
    Commit path is taken: the commit marker is logged once and
    [commit_checkpoint] appends every collected checkpoint to its process; on
    [false] the abort marker is logged once and no history changes.  When no
    failure arrives during the run, the count at decision time is the number
    of processes not failed at the start. *)
Theorem checkpoint_decision env w :
  ((initiate_checkpoint env w).2 = true <->
   length (phase1 env w).2 = length (non_failed (at_decision env w))) /\
  logged MsgCommitting (initiate_checkpoint env w).1
  = logged MsgCommitting w + (if (initiate_checkpoint env w).2 then 1 else 0) /\
  logged MsgAborted (initiate_checkpoint env w).1
  = logged MsgAborted w + (if (initiate_checkpoint env w).2 then 0 else 1) /\
  view checkpoints (initiate_checkpoint env w).1
  = (if (initiate_checkpoint env w).2
     then committed (phase1 env w).2 (view checkpoints w)
     else view checkpoints w) /\
  (arrivals w = [] ->
   length (non_failed (at_decision env w)) = length (non_failed w)).
Proof.
  split; [|split; [|split; [|split]]].
  - rewrite initiate_checkpoint_result. unfold all_acks, non_failed.
    apply Nat.eqb_eq.
  - rewrite (logged_initiate_checkpoint MsgCommitting) by done.
    destruct (initiate_checkpoint env w).2; simpl; lia.
  - rewrite (logged_initiate_checkpoint MsgAborted) by done.
    destruct (initiate_checkpoint env w).2; simpl; lia.
  - apply initiate_checkpoint_histories.
  - intros Hidle. destruct (phase1_idle env w Hidle) as (Ha & Hv & _).
    unfold at_decision. rewrite sleep_idle by done.
    by apply length_filter_flags.
Qed.

Lemma checkpoint_decision_witness :
  length (non_failed (at_decision sample_env (three_processes [])))
  = length (non_failed (three_processes [])).
Proof.
  apply (checkpoint_decision sample_env (three_processes [])). reflexivity.
Defined.

(** C6, as stated, fails: the failure of pid 1 arrives while the run sleeps
    after the tentative checkpoint of pid 0.  Three processes are not failed
    when the run starts, two pairs are collected, and the run returns
    [true]. *)
Lemma decision_not_against_start_set :
  let w := three_processes [[]; [1%Z]] in
  length (non_failed w) = 3 /\
  length (phase1 sample_env w).2 = 2 /\
  (initiate_checkpoint sample_env w).2 = true /\
  ~ ((initiate_checkpoint sample_env w).2 = true <->
     length (phase1 sample_env w).2 = length (non_failed w)).
Proof.
  assert (length (non_failed (three_processes [[]; [1%Z]])) = 3) as H1
    by (vm_compute; reflexivity).
  assert (length (phase1 sample_env (three_processes [[]; [1%Z]])).2 = 2) as H2
    by (vm_compute; reflexivity).
  assert ((initiate_checkpoint sample_env (three_processes [[]; [1%Z]])).2 = true)
    as H3 by (vm_compute; reflexivity).
  cbv zeta. repeat split; try done.
  intros [Hiff _]. specialize (Hiff H3). rewrite H1, H2 in Hiff. discriminate.
Qed.

(** The converse direction fails too: pid 0 fails after its own tentative
    checkpoint; three pairs are collected, as many as processes not failed
    at the start, and the run aborts. *)
Example decision_aborts_on_late_failure :
  let w := three_processes [[]; [0%Z]] in
  length (non_failed w) = 3 /\
  length (phase1 sample_env w).2 = 3 /\
  (initiate_checkpoint sample_env w).2 = false.
Proof. vm_compute. done. Qed.

(** ** step_computation *)

Lemma advance_all_spec env w :
  config (advance_all env w)
  = (next_pid (ctrl w), is_running (ctrl w), is_paused (ctrl w), auto_mode (ctrl w),
     computation_speed (ctrl w), checkpoint_frequency (ctrl w),
     (step_count (ctrl w) + 1)%Z,
     (compute_all env (computation_speed (ctrl w)) (procs w) (draws w)).2) /\
  procs (advance_all env w)
  = (compute_all env (computation_speed (ctrl w)) (procs w) (draws w)).1 /\
  arrivals (advance_all env w) = arrivals w /\
  forall m, marker m = true -> logged m (advance_all env w) = logged m w.
Proof.
  unfold advance_all. simpl.
  change (procs (emit_log ?m ?t ?x)) with (procs x).
  change (procs (set_ctrl (set_step_count ?n (ctrl ?x)) ?x)) with (procs x).
  destruct (compute_all env (computation_speed (ctrl w)) (procs w) (draws w))
    as [l k].
  repeat split. intros m Hm.
  rewrite logged_emit_update.
  change (logged m (set_draws k (set_procs l ?x))) with (logged m x).
  by rewrite logged_emit_other.
Qed.

Lemma step_count_config w w' :
  config w' = config w -> step_count (ctrl w') = step_count (ctrl w).
Proof. unfold config. congruence. Qed.

(** Each process of the list gets one [simulate_computation] call with the
    given intensity. *)
Lemma compute_all_lookup env x l k i q :
  (compute_all env x l k).1 !! i = Some q ->
  exists p k', l !! i = Some p /\
    q = (simulate_computation (random_random env) k' x p).1.
Proof.
  revert k i. induction l as [|p l IH]; intros k i; simpl; [done|].
  destruct (simulate_computation (random_random env) k x p) as [p1 k1] eqn:H1.
  destruct (compute_all env x l k1) as [l2 k2] eqn:H2. simpl.
  destruct i as [|i]; simpl.
  - intros [= <-]. exists p, k. by rewrite H1.
  - intros Hq. apply (IH k1 i). by rewrite H2.
Qed.

Lemma length_compute_all env x l k : length (compute_all env x l k).1 = length l.
Proof.
  revert k. induction l as [|p l IH]; intros k; simpl; [done|].
  destruct (simulate_computation (random_random env) k x p) as [p1 k1].
  specialize (IH k1). destruct (compute_all env x l k1) as [l2 k2].
  simpl in *. by rewrite IH.
Qed.

(** One call: the counter, the processes, and whether a run starts. *)
Lemma step_computation_effect env w :
  (0 <= step_count (ctrl w))%Z ->
  step_count (ctrl (world_of (step_computation env w))) = (step_count (ctrl w) + 1)%Z /\
  view progress (world_of (step_computation env w))
  = progress <$> (compute_all env (computation_speed (ctrl w)) (procs w) (draws w)).1 /\
  (auto_mode (ctrl w) = true /\
   (checkpoint_frequency (ctrl w) | step_count (ctrl w) + 1)%Z ->
   logged MsgPhase1 (world_of (step_computation env w)) = logged MsgPhase1 w + 1) /\
  (~ (auto_mode (ctrl w) = true /\
      (checkpoint_frequency (ctrl w) | step_count (ctrl w) + 1)%Z) ->
   logged MsgPhase1 (world_of (step_computation env w)) = logged MsgPhase1 w).
Proof.
  intros Hs.
  destruct (advance_all_spec env w) as (Hcfg & Hprocs & _ & Hlog).
  specialize (Hlog MsgPhase1 eq_refl).
  set (a := advance_all env w) in *.
  assert (auto_mode (ctrl a) = auto_mode (ctrl w) /\
          checkpoint_frequency (ctrl a) = checkpoint_frequency (ctrl w) /\
          step_count (ctrl a) = (step_count (ctrl w) + 1)%Z) as (Ha & Hf & Hc).
  { unfold config in Hcfg. injection Hcfg as ?. done. }
  rewrite <- Hprocs.
  unfold step_computation. fold a. rewrite Ha, Hf, Hc.
  destruct (auto_mode (ctrl w)) eqn:Hauto.
  - destruct (Z.eqb_spec (checkpoint_frequency (ctrl w)) 0) as [Hz|Hz].
    + simpl. repeat split; [done| |done].
      intros [_ Hdiv]. rewrite Hz in Hdiv. apply Z.divide_0_l in Hdiv. lia.
    + destruct (Z.eqb_spec ((step_count (ctrl w) + 1)
                            mod checkpoint_frequency (ctrl w)) 0) as [Hm|Hm].
      * simpl. split; [|split; [|split]].
        -- etransitivity; [apply step_count_config, config_initiate_checkpoint|].
           etransitivity; [apply step_count_config, config_sleep|]. done.
        -- rewrite view_initiate_checkpoint, view_sleep by done. done.
        -- intros _. rewrite (logged_initiate_checkpoint MsgPhase1) by done.
           rewrite logged_sleep, Hlog by done.
           rewrite bool_decide_eq_true_2 by done.
           rewrite bool_decide_eq_false_2; [lia|].
           by destruct (initiate_checkpoint env (sleep a)).2.
        -- intros Hn. exfalso. apply Hn. split; [done|].
           by apply Z.mod_divide.
      * simpl. repeat split; [done| |done].
        intros [_ Hdiv]. by apply Z.mod_divide in Hdiv.
  - simpl. repeat split; [done| |done]. by intros [? _].
Qed.

(** What a call of [simulate_computation] shows on the process. *)
Lemma simulate_computation_stepped rnd k x p :
  stepped p (simulate_computation rnd k x p).1.
Proof.
  unfold stepped, simulate_computation. destruct (is_failed p); [done|].
  destruct (0.7 <? _)%float; destruct (0.7 <? _)%float; simpl; repeat split; lia.
Qed.

Lemma compute_all_stepped env x l k : Forall2 stepped l (compute_all env x l k).1.
Proof.
  revert k. induction l as [|p l IH]; intros k; simpl; [constructor|].
  pose proof (simulate_computation_stepped (random_random env) k x p) as Hp.
  destruct (simulate_computation (random_random env) k x p) as [p1 k1].
  specialize (IH k1). destruct (compute_all env x l k1) as [l2 k2].
  by constructor.
Qed.

Lemma stepped_progress p q q' : progress q' = progress q -> stepped p q -> stepped p q'.
Proof.
  unfold stepped, progress. intros [= Hs Hm Hr].
  destruct (is_failed p); rewrite ?Hs, ?Hm, ?Hr; [congruence|done].
Qed.

Lemma Forall2_stepped_view l l1 l2 :
  progress <$> l2 = progress <$> l1 -> Forall2 stepped l l1 -> Forall2 stepped l l2.
Proof.
  intros Hv H. revert l2 Hv.
  induction H as [|p q l l1 Hpq _ IH]; intros [|q' l2] Hv; try done.
  rewrite !fmap_cons in Hv.
  assert (progress q' = progress q /\ progress <$> l2 = progress <$> l1) as [Hq Hv']
    by (split; congruence).
  constructor; [by apply (stepped_progress p q q')|by apply IH].
Qed.

(** Every process of the collection is advanced by one step by
    [step_computation], also when a checkpoint run follows. *)
Lemma step_computation_stepped env w :
  Forall2 stepped (procs w) (procs (world_of (step_computation env w))).
Proof.
  destruct (advance_all_spec env w) as (_ & Hprocs & _).
  apply (Forall2_stepped_view _
           (compute_all env (computation_speed (ctrl w)) (procs w) (draws w)).1);
    [|apply compute_all_stepped].
  rewrite <- Hprocs. unfold step_computation.
  destruct (auto_mode (ctrl (advance_all env w))); [|done].
  destruct (checkpoint_frequency (ctrl (advance_all env w)) =? 0)%Z; [done|].
  destruct (step_count (ctrl (advance_all env w))
            mod checkpoint_frequency (ctrl (advance_all env w)) =? 0)%Z; [|done].
  simpl. fold (view progress (initiate_checkpoint env (sleep (advance_all env w))).1).
  by rewrite view_initiate_checkpoint, view_sleep.
Qed.

(** C7. [step_computation] increments the step counter, advances every
    process, and then starts a checkpoint run iff auto-mode is on and the
    incremented counter is a multiple of the checkpoint frequency; a run is
    counted by its phase-1 marker in the log.  Every process is advanced:
    position by position, a process that is not failed has its step grown by
    1 and each message count by 0 or 1, a failed one keeps its state dict and
    counts; the state dicts and counts are those that one
    [simulate_computation] call per process, with the configured speed, in
    the order of the collection, gives.  With frequency 5 a run starts exactly
    at the steps whose number is a multiple of 5. *)
Theorem step_computation_spec env w :
  (0 <= step_count (ctrl w))%Z ->
  let w' := world_of (step_computation env w) in
  let auto :=
    auto_mode (ctrl w) = true /\
    (checkpoint_frequency (ctrl w) | step_count (ctrl w) + 1)%Z in
  step_count (ctrl w') = (step_count (ctrl w) + 1)%Z /\
  Forall2 stepped (procs w) (procs w') /\
  view progress w'
  = progress <$> (compute_all env (computation_speed (ctrl w)) (procs w) (draws w)).1 /\
  (auto -> logged MsgPhase1 w' = logged MsgPhase1 w + 1) /\
  (~ auto -> logged MsgPhase1 w' = logged MsgPhase1 w) /\
  (auto_mode (ctrl w) = true -> checkpoint_frequency (ctrl w) = 5%Z ->
   (logged MsgPhase1 w' = logged MsgPhase1 w + 1
    <-> ((step_count (ctrl w) + 1) mod 5 = 0)%Z)).
Proof.
  intros Hs. cbv zeta.
  destruct (step_computation_effect env w Hs) as (H1 & H2 & H3 & H4).
  split; [done|]. split; [apply step_computation_stepped|].
  split; [done|]. split; [done|].
  split; [done|]. intros Hauto H5. rewrite H5 in *. split.
  - intros Hrun.
    destruct (Z.eq_dec ((step_count (ctrl w) + 1) mod 5)%Z 0%Z) as [Hd|Hd]; [done|].
    rewrite H4 in Hrun; [lia|]. intros [_ Hdiv]. by apply Z.mod_divide in Hdiv.
  - intros Hmod. apply H3. split; [done|]. by apply Z.mod_divide.
Qed.

(** ** Process: restore and failure *)

(** C4. On a process with a non-empty history, [restore_from_checkpoint] sets
    the state dict and the two message counters to those stored in the last
    entry of the history and keeps the history as it is, so that a second
    call gives the same process and the same checkpoint id again. *)
Theorem restore_from_checkpoint_last p :
  checkpoints p <> [] ->
  exists ck, last (checkpoints p) = Some ck /\
    state (restore_from_checkpoint p).1 = ckpt_state ck /\
    sent_counter (restore_from_checkpoint p).1 = ckpt_sent_counter ck /\
    rcvd_counter (restore_from_checkpoint p).1 = ckpt_rcvd_counter ck /\
    (restore_from_checkpoint p).2 = Some (checkpoint_id ck) /\
    checkpoints (restore_from_checkpoint p).1 = checkpoints p /\
    restore_from_checkpoint (restore_from_checkpoint p).1 = restore_from_checkpoint p.
Proof.
  intros Hne. destruct (last (checkpoints p)) as [ck|] eqn:Hlast.
  - exists ck. split; [done|]. unfold restore_from_checkpoint.
    rewrite Hlast. simpl. rewrite Hlast. done.
  - by apply last_None in Hlast.
Qed.

Lemma restore_from_checkpoint_last_witness :
  exists ck, last (checkpoints checkpointed_process) = Some ck /\
    state (restore_from_checkpoint checkpointed_process).1 = ckpt_state ck.
Proof.
  destruct (restore_from_checkpoint_last checkpointed_process) as (ck & H1 & H2 & _).
  - vm_compute. discriminate.
  - exists ck. by split.
Defined.

(** With an empty history the call changes nothing and returns [None]. *)
Lemma restore_from_checkpoint_none p :
  checkpoints p = [] -> restore_from_checkpoint p = (p, None).
Proof. intros H. unfold restore_from_checkpoint. by rewrite H. Qed.

(** X1. A checkpoint taken and committed is what a later restore brings back,
    whatever happened to the state dict and the counters in between. *)
Lemma restore_after_commit now uid p s m1 m2 :
  let '(p1, ck) := take_tentative_checkpoint now uid p in
  let p2 := set_rcvd_counter m2 (set_sent_counter m1 (set_state s
              (commit_checkpoint ck p1))) in
  state (restore_from_checkpoint p2).1 = state p /\
  sent_counter (restore_from_checkpoint p2).1 = sent_counter p /\
  rcvd_counter (restore_from_checkpoint p2).1 = rcvd_counter p.
Proof.
  unfold take_tentative_checkpoint, commit_checkpoint, restore_from_checkpoint.
  simpl. rewrite last_snoc. done.
Qed.

Lemma simulate_computation_failed rnd k x p :
  is_failed p = true -> simulate_computation rnd k x p = (p, k).
Proof. intros H. unfold simulate_computation. by rewrite H. Qed.

(** C5. After [simulate_failure], any number of [simulate_computation] calls,
    with any intensities, leave the process as it is: the state dict with its
    four fields and the step, the message counts and the counters; no random
    number is drawn either. *)
Theorem failure_freezes_state rnd intensities p k :
  advances rnd intensities (simulate_failure p, k) = (simulate_failure p, k) /\
  state (advances rnd intensities (simulate_failure p, k)).1 = state p /\
  messages_sent (advances rnd intensities (simulate_failure p, k)).1
  = messages_sent p /\
  messages_received (advances rnd intensities (simulate_failure p, k)).1
  = messages_received p /\
  sent_counter (advances rnd intensities (simulate_failure p, k)).1
  = sent_counter p /\
  rcvd_counter (advances rnd intensities (simulate_failure p, k)).1
  = rcvd_counter p.
Proof.
  assert (advances rnd intensities (simulate_failure p, k) = (simulate_failure p, k))
    as Heq.
  { induction intensities as [|x xs IH]; [reflexivity|].
    unfold advances in *. simpl fold_left.
    by rewrite simulate_computation_failed. }
  rewrite Heq. done.
Qed.

(** The same inside [step_computation]: its loop skips a failed process. *)
Lemma compute_all_failed env x l k i p :
  l !! i = Some p -> is_failed p = true -> (compute_all env x l k).1 !! i = Some p.
Proof.
  revert k i. induction l as [|q l IH]; intros k i Hl Hf; [done|]. simpl.
  destruct (simulate_computation (random_random env) k x q) as [q1 k1] eqn:H1.
  specialize (IH k1). destruct (compute_all env x l k1) as [l2 k2].
  destruct i as [|i]; simpl in *.
  - injection Hl as ->. rewrite simulate_computation_failed in H1 by done.
    by injection H1 as <- _.
  - by apply IH.
Qed.

(** ** initiate_recovery *)

Lemma restore_step_idle w i :
  arrivals w = [] ->
  arrivals (restore_step w i) = [] /\
  procs (restore_step w i) = alter restored i (procs w).
Proof.
  intros Hidle. unfold restore_step.
  destruct (procs w !! i) as [p|] eqn:Hp.
  - assert (alter (fun _ => (restore_from_checkpoint p).1) i (procs w)
            = alter restored i (procs w)) as Heq.
    { apply list_eq. intros j. destruct (decide (i = j)) as [->|Hij].
      - by rewrite !list_lookup_alter_eq, Hp.
      - by rewrite !list_lookup_alter_ne. }
    destruct (restore_from_checkpoint p) as [p' r]. simpl in Heq.
    destruct r as [id|]; [|by split].
    destruct (truthy (Some id)); [|by split].
    rewrite sleep_idle by done. by split.
  - split; [done|]. apply list_eq. intros j.
    destruct (decide (i = j)) as [->|Hij].
    + by rewrite list_lookup_alter_eq, Hp.
    + by rewrite list_lookup_alter_ne.
Qed.

Lemma get_process_lookup w k i p :
  get_process (ctrl w) k = Some (i, p) -> procs w !! i = Some p /\ pid p = k.
Proof.
  unfold get_process. intros H. by apply list_find_Some in H as (H1 & H2 & _).
Qed.

(** Without arrivals, a recovery on an existing pid clears the failure flag
    of the named process, restores every process from its last checkpoint and
    sets every status to [running]. *)
Lemma initiate_recovery_idle w k i fp :
  arrivals w = [] -> get_process (ctrl w) k = Some (i, fp) ->
  procs (initiate_recovery k w)
  = (fun p => set_status running (restored p))
    <$> alter (set_is_failed false) i (procs w).
Proof.
  intros Hidle Hget. unfold initiate_recovery. rewrite Hget.
  rewrite (sleep_idle (emit_log _ _ w)) by done.
  set (w1 := update_process i (set_is_failed false) (emit_log _ _ w)).
  destruct (loop_alter_all restore_step procs (fun w => arrivals w = []) restored
              restore_step_idle w1 Hidle) as [Ha Hp].
  rewrite sleep_idle by done.
  change (procs (emit_log ?m ?t (emit_update (set_procs ?l ?x)))) with l.
  rewrite Hp. rewrite <- list_fmap_compose. done.
Qed.

Lemma recovery_unknown_pid w k :
  get_process (ctrl w) k = None -> initiate_recovery k w = w.
Proof. intros H. unfold initiate_recovery. by rewrite H. Qed.

Lemma restored_flag p : checkpoints p <> [] -> is_failed (restored p) = false.
Proof.
  intros Hne. unfold restored, restore_from_checkpoint.
  destruct (last (checkpoints p)) eqn:Hl; [done|]. by apply last_None in Hl.
Qed.

Lemma restored_checkpoints p : checkpoints (restored p) = checkpoints p.
Proof.
  unfold restored, restore_from_checkpoint. by destruct (last (checkpoints p)).
Qed.

(** C10, with the condition it needs.  When no failure arrives during the
    run, [initiate_recovery] on an existing pid leaves no process with a
    non-empty history failed, whichever process was named: the restore loop
    runs over the whole collection and [restore_from_checkpoint] clears the
    flag whenever the history is non-empty. *)
Theorem recovery_clears_every_flag w k i fp :
  arrivals w = [] -> get_process (ctrl w) k = Some (i, fp) ->
  forall p', p' ∈ procs (initiate_recovery k w) ->
    checkpoints p' <> [] -> is_failed p' = false.
Proof.
  intros Hidle Hget p' Hin Hne.
  rewrite (initiate_recovery_idle w k i fp Hidle Hget) in Hin.
  apply list_elem_of_fmap in Hin as (q & -> & _).
  simpl in *. rewrite restored_checkpoints in Hne. by apply restored_flag.
Qed.

Lemma recovery_clears_every_flag_witness :
  exists p', procs (initiate_recovery 0 checkpointed_then_failed) !! 1 = Some p' /\
    is_failed p' = false.
Proof.
  assert (exists p', procs (initiate_recovery 0 checkpointed_then_failed) !! 1 = Some p' /\
            checkpoints p' <> []) as (p' & Hl & Hne).
  { vm_compute. eexists. split; [reflexivity|discriminate]. }
  exists p'. split; [done|].
  eapply (recovery_clears_every_flag checkpointed_then_failed 0);
    [reflexivity|vm_compute; reflexivity| |done].
  by eapply list_elem_of_lookup_2.
Defined.

(** C10, as stated, fails when a failure arrives during the run.  Pid 1 is
    failed and every process has one checkpoint; the recovery of pid 1
    restores pid 0 first, and the failure of pid 0 arrives at the yield that
    follows its restore.  Pid 0 ends with its history and with the flag
    set. *)
Lemma recovery_interrupted_keeps_flag :
  let w := failure_during_recovery in
  (exists fp, get_process (ctrl w) 1 = Some (1, fp)) /\
  (exists p, procs w !! 0 = Some p /\ checkpoints p <> [] /\ is_failed p = false) /\
  exists p', procs (initiate_recovery 1 w) !! 0 = Some p' /\
    checkpoints p' <> [] /\ is_failed p' = true.
Proof.
  cbv zeta. split; [|split].
  - vm_compute. eexists. reflexivity.
  - vm_compute. eexists. split; [reflexivity|]. split; [discriminate|reflexivity].
  - vm_compute. eexists. split; [reflexivity|]. split; [discriminate|reflexivity].
Qed.

(** C2, as the code has it.  Without arrivals, [initiate_recovery] on the pid
    of an existing process that is not failed is the same global rollback as
    on a failed one.  No history changes.  A process with a non-empty history
    gets the state dict and the counters of its last checkpoint, is not
    failed and has status [running].  A process with an empty history keeps
    its state dict, counters and failure flag, and has status [running] when
    it is not failed.  Nothing else of a process changes. *)
Theorem recovery_of_running_process w k i fp :
  arrivals w = [] -> get_process (ctrl w) k = Some (i, fp) -> is_failed fp = false ->
  view checkpoints (initiate_recovery k w) = view checkpoints w /\
  forall j p, procs w !! j = Some p ->
    exists p', procs (initiate_recovery k w) !! j = Some p' /\
      identity p' = identity p /\ checkpoint_type p' = checkpoint_type p /\
      (forall ck, last (checkpoints p) = Some ck ->
         captured p' = snapshot ck /\ is_failed p' = false /\ status p' = running) /\
      (checkpoints p = [] ->
         captured p' = captured p /\ is_failed p' = is_failed p /\
         (is_failed p = false -> status p' = running)).
Proof.
  intros Hidle Hget Hf.
  assert (procs (initiate_recovery k w)
          = (fun p => set_status running (restored p)) <$> procs w) as Heq.
  { rewrite (initiate_recovery_idle w k i fp Hidle Hget). f_equal.
    apply get_process_lookup in Hget as [Hl _].
    apply list_eq. intros j. destruct (decide (i = j)) as [->|Hij].
    - rewrite list_lookup_alter_eq, Hl. simpl. f_equal.
      destruct fp. simpl in Hf. by rewrite Hf.
    - by rewrite list_lookup_alter_ne. }
  split.
  - unfold view. rewrite Heq, <- list_fmap_compose.
    apply list_fmap_ext. intros j p _. simpl. apply restored_checkpoints.
  - intros j p Hl. exists (set_status running (restored p)).
    split; [by rewrite Heq, list_lookup_fmap, Hl|].
    unfold restored, restore_from_checkpoint.
    destruct (last (checkpoints p)) as [c|] eqn:Hlast.
    + split; [done|]. split; [done|]. split.
      * by intros ck [= <-].
      * intros Hnil. by rewrite Hnil in Hlast.
    + split; [done|]. split; [done|]. split; [done|]. by intros _.
Qed.

Lemma recovery_of_running_process_witness :
  exists p', procs (initiate_recovery 0 after_checkpoint_and_step) !! 1 = Some p' /\
    computation_step (state p') = 0%Z /\ is_failed p' = false /\ status p' = running.
Proof.
  assert (exists p ck, procs after_checkpoint_and_step !! 1 = Some p /\
            last (checkpoints p) = Some ck /\ computation_step (ckpt_state ck) = 0%Z)
    as (p & ck & Hp & Hck & Hs).
  { vm_compute. do 2 eexists. repeat split. }
  assert (exists fp, get_process (ctrl after_checkpoint_and_step) 0 = Some (0, fp) /\
            is_failed fp = false) as (fp & Hget & Hf).
  { vm_compute. eexists. split; reflexivity. }
  destruct (recovery_of_running_process after_checkpoint_and_step 0 0 fp eq_refl Hget Hf)
    as (_ & H).
  destruct (H 1 p Hp) as (p' & Hp' & _ & _ & Hr & _).
  destruct (Hr ck Hck) as (Hc & Hfl & Hst).
  exists p'. split; [exact Hp'|]. split; [|split; [exact Hfl|exact Hst]].
  unfold captured, snapshot in Hc. rewrite <- Hs. congruence.
Defined.

(** C2, as stated, fails: pid 0 is not failed, has a checkpoint taken at step
    0 and has computed one step since; the recovery takes its state dict back
    to the checkpoint. *)
Lemma recovery_of_running_process_rolls_back :
  let w := after_checkpoint_and_step in
  (exists p, get_process (ctrl w) 0 = Some (0, p) /\ is_failed p = false) /\
  view (fun p => computation_step (state p)) w = [1; 1; 1]%Z /\
  view (fun p => computation_step (state p)) (initiate_recovery 0 w) = [0; 0; 0]%Z /\
  view state (initiate_recovery 0 w) <> view state w.
Proof.
  cbv zeta. split; [|split; [|split]].
  - vm_compute. eexists. split; reflexivity.
  - vm_compute. reflexivity.
  - vm_compute. reflexivity.
  - intros H. apply (f_equal (fmap computation_step)) in H.
    vm_compute in H. discriminate.
Qed.

(** ** The failure flag and the status *)

(** C3 fails on [initiate_recovery]: pids 0 and 1 are failed and no process
    has a checkpoint.  Every process is consistent before the call; after the
    recovery of pid 0, pid 1 is still failed and its status is [running]. *)
Lemma recovery_breaks_consistency :
  Forall consistent (procs two_failed) /\
  (exists p, procs (initiate_recovery 0 two_failed) !! 1 = Some p /\
     is_failed p = true /\ status p = running) /\
  ~ Forall consistent (procs (initiate_recovery 0 two_failed)).
Proof.
  split; [|split].
  - apply (bool_decide_unpack (Forall consistent (procs two_failed))).
    vm_compute. exact I.
  - vm_compute. eexists. repeat split.
  - apply (bool_decide_eq_false
             (Forall consistent (procs (initiate_recovery 0 two_failed)))).
    vm_compute. reflexivity.
Qed.

(** ** Process identifiers *)

Lemma add_process_spec env name w :
  (add_process env name w).2 = next_pid (ctrl w) /\
  next_pid (ctrl (add_process env name w).1) = (next_pid (ctrl w) + 1)%Z /\
  exists p, procs (add_process env name w).1 = procs w ++ [p] /\
    pid p = next_pid (ctrl w) /\ is_failed p = false /\ checkpoints p = [].
Proof.
  unfold add_process, new_process. simpl. repeat split.
  eexists. repeat split.
Qed.

Lemma run_op_ok env st o : pids_ok st -> pids_ok (run_op env st o).
Proof.
  destruct st as [w ks]. intros (Hnd & Hlt & Hks & Hsorted).
  simpl in Hnd, Hlt, Hks, Hsorted. destruct o as [name|k].
  - unfold run_op. simpl fst. simpl snd.
    destruct (add_process_spec env name w) as (Hret & Hnext & p & Hp & Hpid & _).
    destruct (add_process env name w) as [w' k]. simpl in Hret, Hnext, Hp.
    subst k. unfold pids_ok. simpl fst. simpl snd. rewrite Hnext, Hp.
    split; [|split; [|split]].
    + rewrite fmap_app. apply NoDup_app. split; [done|]. split.
      * intros x Hx Hx'. apply list_elem_of_fmap in Hx as (q & -> & Hq).
        apply list_elem_of_singleton in Hx'.
        rewrite Forall_forall in Hlt. specialize (Hlt q Hq). simpl in Hx'. lia.
      * apply NoDup_singleton.
    + apply Forall_app. split.
      * eapply Forall_impl; [exact Hlt|]. simpl. intros; lia.
      * apply Forall_singleton. lia.
    + apply Forall_app. split.
      * eapply Forall_impl; [exact Hks|]. simpl. intros; lia.
      * apply Forall_singleton. lia.
    + apply StronglySorted_app_2; [|done|].
      * intros x1 x2 H1 H2. apply list_elem_of_singleton in H2 as ->.
        rewrite Forall_forall in Hks. by apply Hks.
      * repeat constructor.
  - unfold run_op, pids_ok, remove_process. simpl.
    change (procs (set_procs ?l w)) with l.
    split; [|split; [|split]]; try done.
    + eapply sublist_NoDup; [exact Hnd|].
      apply fmap_sublist, sublist_filter.
    + rewrite Forall_forall in Hlt. apply Forall_forall. intros p Hp.
      apply list_elem_of_filter in Hp as [_ Hp]. by apply Hlt.
Qed.

Lemma run_ok env ops st : pids_ok st -> pids_ok (fold_left (run_op env) ops st).
Proof.
  revert st. induction ops as [|o ops IH]; intros st Hst; [done|].
  simpl. by apply IH, run_op_ok.
Qed.

(** C8. From the initial controller, after any sequence of [add_process] and
    [remove_process] calls: the pids returned by [add_process] are strictly
    increasing in the order of the calls, the processes of the collection
    have pairwise distinct pids, and the next [add_process] returns a pid
    above every pid returned so far and every pid in the collection. *)
Theorem pids_unique_and_increasing env sched ops :
  StronglySorted Z.lt (run env ops (init_world sched)).2 /\
  NoDup (pid <$> procs (run env ops (init_world sched)).1) /\
  forall name,
    Forall (fun k => (k < (add_process env name (run env ops (init_world sched)).1).2)%Z)
      (run env ops (init_world sched)).2 /\
    Forall (fun p => (pid p < (add_process env name (run env ops (init_world sched)).1).2)%Z)
      (procs (run env ops (init_world sched)).1).
Proof.
  assert (pids_ok (init_world sched, [])) as H0.
  { unfold pids_ok. simpl. repeat split; constructor. }
  destruct (run_ok env ops _ H0) as (Hnd & Hlt & Hks & Hsorted).
  fold (run env ops (init_world sched)) in *.
  split; [done|]. split; [done|]. intros name.
  destruct (add_process_spec env name (run env ops (init_world sched)).1) as [-> _].
  by split.
Qed.

Example pids_after_removal :
  (run sample_env [Add None; Add None; Remove 0; Add None; Remove 2; Add (Some "n")]
     (init_world [])).2 = [0; 1; 2; 3]%Z /\
  pid <$> procs (run sample_env
     [Add None; Add None; Remove 0; Add None; Remove 2; Add (Some "n")]
     (init_world [])).1 = [1; 3]%Z.
Proof. vm_compute. done. Qed.

Lemma checkpoint_never_aborts_when_idle_witness :
  (initiate_checkpoint sample_env (three_processes [])).2 = true.
Proof. apply checkpoint_never_aborts_when_idle. reflexivity. Defined.

Lemma step_computation_spec_witness :
  let w := world_of (steps sample_env 4 auto_world) in
  let w' := world_of (step_computation sample_env w) in
  step_count (ctrl w') = 5%Z /\
  Forall2 stepped (procs w) (procs w') /\
  logged MsgPhase1 w' = logged MsgPhase1 w + 1.
Proof.
  cbv zeta.
  destruct (step_computation_spec sample_env (world_of (steps sample_env 4 auto_world)))
    as (H1 & H2 & _ & H3 & _); [apply Z.leb_le; vm_compute; reflexivity|].
  split; [rewrite H1; vm_compute; reflexivity|]. split; [exact H2|].
  apply H3. split; [vm_compute; reflexivity|].
  exists 1%Z. vm_compute. reflexivity.
Defined.

(** ** The cadence of automatic checkpoints *)

Lemma step_computation_config env w :
  config (world_of (step_computation env w)) = config (advance_all env w).
Proof.
  unfold step_computation.
  destruct (auto_mode (ctrl (advance_all env w))); [|done].
  destruct (checkpoint_frequency (ctrl (advance_all env w)) =? 0)%Z; [done|].
  destruct (step_count (ctrl (advance_all env w))
            mod checkpoint_frequency (ctrl (advance_all env w)) =? 0)%Z; [|done].
  simpl. by rewrite config_initiate_checkpoint, config_sleep.
Qed.

Lemma step_computation_returns env w :
  checkpoint_frequency (ctrl w) <> 0%Z ->
  step_computation env w = Returned (world_of (step_computation env w)).
Proof.
  intros Hf. destruct (advance_all_spec env w) as (Hcfg & _).
  assert (checkpoint_frequency (ctrl (advance_all env w))
          = checkpoint_frequency (ctrl w)) as Hf'.
  { unfold config in Hcfg. by injection Hcfg. }
  unfold step_computation. rewrite Hf'.
  destruct (auto_mode (ctrl (advance_all env w))); [|done].
  destruct (Z.eqb_spec (checkpoint_frequency (ctrl w)) 0); [done|].
  by destruct (step_count (ctrl (advance_all env w))
               mod checkpoint_frequency (ctrl w) =? 0)%Z.
Qed.

Lemma div_succ (s f : Z) :
  (0 < f)%Z -> (0 <= s)%Z ->
  ((s + 1) / f = s / f + (if (s + 1) mod f =? 0 then 1 else 0))%Z.
Proof.
  intros Hf Hs. destruct (Z.eqb_spec ((s + 1) mod f) 0) as [Hm|Hm].
  - Z.div_mod_to_equations. nia.
  - Z.div_mod_to_equations. nia.
Qed.

(** X21. In auto-mode with frequency [f], [n] steps from step [s] start one run
    per multiple of [f] in the interval from [s + 1] to [s + n]. *)
Lemma steps_cadence env n : forall w f,
  auto_mode (ctrl w) = true -> checkpoint_frequency (ctrl w) = f ->
  (0 < f)%Z -> (0 <= step_count (ctrl w))%Z ->
  exists w', steps env n w = Returned w' /\
    step_count (ctrl w') = (step_count (ctrl w) + Z.of_nat n)%Z /\
    Z.of_nat (logged MsgPhase1 w')
    = (Z.of_nat (logged MsgPhase1 w)
       + ((step_count (ctrl w) + Z.of_nat n) / f - step_count (ctrl w) / f))%Z.
Proof.
  induction n as [|n IH]; intros w f Hauto Hfreq Hf Hs.
  - exists w. simpl. rewrite Z.add_0_r. repeat split; lia.
  - simpl steps. rewrite step_computation_returns by lia.
    set (w1 := world_of (step_computation env w)).
    destruct (step_computation_effect env w Hs) as (Hc & _ & Hrun & Hnorun).
    fold w1 in Hc, Hrun, Hnorun.
    pose proof (step_computation_config env w) as Hcfg. fold w1 in Hcfg.
    destruct (advance_all_spec env w) as (Hcfg' & _). rewrite Hcfg' in Hcfg.
    assert (auto_mode (ctrl w1) = auto_mode (ctrl w) /\
            checkpoint_frequency (ctrl w1) = checkpoint_frequency (ctrl w))
      as [Hauto1 Hfreq1].
    { unfold config in Hcfg. injection Hcfg as ?. done. }
    destruct (IH w1 f) as (w' & Hsteps & Hcount & Hlog);
      [by rewrite Hauto1|by rewrite Hfreq1|lia|lia|].
    exists w'. split; [done|]. split; [lia|].
    rewrite Hlog, Hc.
    replace (step_count (ctrl w) + 1 + Z.of_nat n)%Z
      with (step_count (ctrl w) + Z.of_nat (S n))%Z by lia.
    rewrite (div_succ (step_count (ctrl w)) f) by lia.
    destruct (Z.eqb_spec ((step_count (ctrl w) + 1) mod f) 0) as [Hm|Hm].
    + rewrite Hrun; [lia|]. split; [done|]. rewrite Hfreq.
      apply Z.mod_divide; [lia|done].
    + rewrite Hnorun; [lia|]. intros [_ Hdiv]. rewrite Hfreq in Hdiv.
      apply Z.mod_divide in Hdiv; [done|lia].
Qed.

(** Scenario E: with frequency 5, one run after 5 steps and two after 10. *)
Example auto_checkpoints_every_five :
  logged MsgPhase1 auto_world = 0 /\
  map (fun n => logged MsgPhase1 (world_of (steps sample_env n auto_world)))
      [1; 2; 3; 4; 5; 6; 7; 8; 9; 10; 11]
  = [0; 0; 0; 0; 1; 1; 1; 1; 1; 2; 2].
Proof. vm_compute. done. Qed.

(** With frequency 0 in auto-mode the modulo raises, after the processes
    have advanced. *)
Example zero_frequency_raises :
  exists w, step_computation sample_env (start_auto 1.0%float 0%Z (three_processes []))
            = ZeroDivisionError w /\
    step_count (ctrl w) = 1%Z /\
    view (fun p => computation_step (state p)) w = [1; 1; 1]%Z.
Proof. vm_compute. eexists. repeat split. Qed.

(** ** Where the flag and the status stay consistent *)










(** Under arrivals the Abort path of [initiate_checkpoint] breaks it too:
    pid 0 fails after its tentative checkpoint and [abort_checkpoint] sets
    its status back to [running]. *)
Example abort_breaks_consistency :
  let r := initiate_checkpoint sample_env (three_processes [[]; [0%Z]]) in
  r.2 = false /\
  view (fun p => (is_failed p, status p)) r.1
  = [(true, running); (false, running); (false, running)].
Proof. vm_compute. done. Qed.

(** ** Scenarios *)

(** Scenario A: three processes, none failed. *)
Example scenario_A :
  let r := initiate_checkpoint sample_env (three_processes []) in
  view pid (three_processes []) = [0; 1; 2]%Z /\
  r.2 = true /\
  view (fun p => length (checkpoints p)) r.1 = [1; 1; 1] /\
  logged MsgCommitting r.1 = 1 /\ logged MsgAborted r.1 = 0.
Proof. vm_compute. done. Qed.

(** Scenario B: pid 1 failed before the run. *)
Example scenario_B :
  let r := initiate_checkpoint sample_env
             (handle_trigger_failure 1 (three_processes [])) in
  r.2 = true /\
  view (fun p => length (checkpoints p)) r.1 = [1; 0; 1] /\
  view (fun p => (is_failed p, status p)) r.1
  = [(false, running); (true, failed); (false, running)].
Proof. vm_compute. done. Qed.

(** Scenario C: checkpoint, one step, failure of pid 0, recovery of pid 0. *)
Example scenario_C :
  let w0 := (initiate_checkpoint sample_env (three_processes [])).1 in
  let w1 := handle_trigger_failure 0 after_checkpoint_and_step in
  let w2 := initiate_recovery 0 w1 in
  view state w1 <> view state w0 /\
  view state w2 = view state w0 /\
  view (fun p => (is_failed p, status p)) w2
  = [(false, running); (false, running); (false, running)].
Proof.
  cbv zeta. split; [|split].
  - intros H. apply (f_equal (fmap computation_step)) in H.
    vm_compute in H. discriminate.
  - vm_compute. reflexivity.
  - vm_compute. reflexivity.
Qed.

(** Scenario D: recovery of a failed process, no checkpoint ever taken. *)
Example scenario_D :
  let w := handle_trigger_failure 0 (three_processes []) in
  view progress (initiate_recovery 0 w) = view progress w /\
  view (fun p => (is_failed p, status p)) (initiate_recovery 0 w)
  = [(false, running); (false, running); (false, running)].
Proof. vm_compute. done. Qed.

(** The two outcomes of a run under arrivals: pid 1 fails before its turn and
    the run commits for pids 0 and 2; pid 0 fails after its turn and the run
    aborts for everyone. *)
Example commit_without_late_failure :
  let w := three_processes [[]; [1%Z]] in
  map (participant sample_env w) [0; 1; 2] = [true; false; true] /\
  (initiate_checkpoint sample_env w).2 = true /\
  view (fun p => length (checkpoints p)) (initiate_checkpoint sample_env w).1
  = [1; 0; 1].
Proof. vm_compute. done. Qed.

Example abort_changes_no_history :
  let w := three_processes [[]; [0%Z]] in
  map (participant sample_env w) [0; 1; 2] = [true; true; true] /\
  (initiate_checkpoint sample_env w).2 = false /\
  view (fun p => length (checkpoints p)) (initiate_checkpoint sample_env w).1
  = [0; 0; 0].
Proof. vm_compute. done. Qed.

(** * Further properties *)

(** ** Looking processes up *)

(** [get_process] only reads the pids. *)
Lemma get_process_pids w w' k i p :
  view pid w' = view pid w -> get_process (ctrl w) k = Some (i, p) ->
  exists p', get_process (ctrl w') k = Some (i, p') /\ pid p' = k.
Proof.
  unfold get_process, view, procs. intros Hv Hget.
  apply list_find_Some in Hget as (Hl & Hp & Hfirst).
  assert (forall j, pid <$> procs w' !! j = pid <$> procs w !! j) as Hj.
  { intros j. unfold procs. rewrite <- (list_lookup_fmap pid (processes (ctrl w')) j).
    rewrite <- (list_lookup_fmap pid (processes (ctrl w)) j). by rewrite Hv. }
  unfold procs in Hj. pose proof (Hj i) as Hi. rewrite Hl in Hi. simpl in Hi.
  destruct (processes (ctrl w') !! i) as [p'|] eqn:Hl'; [|done].
  injection Hi as Hi. exists p'. split; [|congruence].
  apply list_find_Some. split; [done|]. split; [congruence|].
  intros j y Hy Hlt Hk. specialize (Hj j). rewrite Hy in Hj. simpl in Hj.
  destruct (processes (ctrl w) !! j) as [q|] eqn:Hq; [|done].
  injection Hj as Hj. apply (Hfirst j q Hq Hlt). congruence.
Qed.

Lemma get_process_pids_none w w' k :
  view pid w' = view pid w -> get_process (ctrl w) k = None ->
  get_process (ctrl w') k = None.
Proof.
  unfold get_process, view, procs. intros Hv Hget.
  apply list_find_None. apply list_find_None in Hget.
  apply Forall_forall. intros p' Hin Hk.
  apply list_elem_of_lookup in Hin as [j Hj].
  assert (pid <$> processes (ctrl w) !! j = Some (pid p')) as Hq
    by (rewrite <- (list_lookup_fmap pid (processes (ctrl w)) j), <- Hv,
          list_lookup_fmap, Hj; done).
  destruct (processes (ctrl w) !! j) as [q|] eqn:Hlq; [|done].
  injection Hq as Hq.
  rewrite Forall_forall in Hget. apply (Hget q); [|congruence].
  by eapply list_elem_of_lookup_2.
Qed.

Lemma add_process_lookup env name w :
  pids_below w ->
  exists p,
    procs (add_process env name w).1 = procs w ++ [p] /\
    get_process (ctrl (add_process env name w).1) (add_process env name w).2
    = Some (length (procs w), p) /\
    custom_name p
    = (if truthy name then default ""%string name
       else "Node-" ++ string_of_Z (next_pid (ctrl w)))%string /\
    (forall k, k <> next_pid (ctrl w) ->
       get_process (ctrl (add_process env name w).1) k = get_process (ctrl w) k) /\
    pids_below (add_process env name w).1.
Proof.
  intros Hlt. unfold pids_below in *.
  set (p := (new_process (random_random env) (draws w) (next_pid (ctrl w))
               (Z.of_nat (length (processes (ctrl w))) + 1) name).1).
  assert (procs (add_process env name w).1 = procs w ++ [p]) as Hprocs by done.
  assert (pid p = next_pid (ctrl w)) as Hpid by done.
  assert (list_find (fun q => pid q = next_pid (ctrl w)) (procs w) = None) as Hnone.
  { apply list_find_None. eapply Forall_impl; [exact Hlt|]. simpl. intros; lia. }
  exists p. split; [done|]. split; [|split; [|split]].
  - unfold get_process. change (processes (ctrl ?x)) with (procs x).
    rewrite Hprocs. change (add_process env name w).2 with (next_pid (ctrl w)).
    rewrite list_find_app_r by done. simpl.
    rewrite decide_True by done. simpl. done.
  - unfold p, new_process. simpl. by destruct name.
  - intros k Hk. unfold get_process. change (processes (ctrl ?x)) with (procs x).
    rewrite Hprocs.
    destruct (list_find (fun q => pid q = k) (procs w)) as [[i q]|] eqn:Hf.
    + by apply list_find_app_l.
    + rewrite list_find_app_r by done. simpl. rewrite decide_False; [done|].
      congruence.
  - rewrite Hprocs. change (next_pid (ctrl (add_process env name w).1))
      with (next_pid (ctrl w) + 1)%Z.
    apply Forall_app. split.
    + eapply Forall_impl; [exact Hlt|]. simpl. intros; lia.
    + apply Forall_singleton. lia.
Qed.

(** X3. [add_process] then [get_process].  When the pids of the collection are
    below [next_pid], the pid returned finds the process just appended, at the
    last position, with the name asked for or ["Node-<pid>"]; every other pid
    finds what it found before, and the pids stay below [next_pid]. *)
Theorem get_process_after_add env name w :
  pids_below w ->
  exists p,
    procs (add_process env name w).1 = procs w ++ [p] /\
    get_process (ctrl (add_process env name w).1) (add_process env name w).2
    = Some (length (procs w), p) /\
    custom_name p
    = (if truthy name then default ""%string name
       else "Node-" ++ string_of_Z (next_pid (ctrl w)))%string /\
    (forall k, k <> next_pid (ctrl w) ->
       get_process (ctrl (add_process env name w).1) k = get_process (ctrl w) k) /\
    pids_below (add_process env name w).1.
Proof. apply add_process_lookup. Qed.

Lemma get_process_after_add_witness :
  exists p,
    get_process (ctrl (add_process sample_env (Some ""%string) (three_processes [])).1) 3
    = Some (3, p) /\ custom_name p = "Node-3"%string.
Proof.
  destruct (get_process_after_add sample_env (Some ""%string) (three_processes []))
    as (p & _ & Hget & Hname & _).
  - apply (bool_decide_unpack (pids_below (three_processes []))).
    vm_compute. exact I.
  - exists p. split; [exact Hget|exact Hname].
Defined.

Lemma list_find_filter_ne {A} (P Q : A -> Prop) `{!forall x, Decision (P x)}
    `{!forall x, Decision (Q x)} (l : list A) :
  (forall x, P x -> Q x) ->
  snd <$> list_find P (filter Q l) = snd <$> list_find P l.
Proof.
  intros HPQ. induction l as [|x l IH]; [done|].
  rewrite filter_cons. destruct (decide (Q x)) as [Hq|Hq].
  - simpl. destruct (decide (P x)); [done|].
    destruct (list_find P (filter Q l)) as [[i y]|],
             (list_find P l) as [[j z]|]; simpl in *; congruence.
  - simpl. rewrite decide_False by (intros HP; by apply Hq, HPQ).
    rewrite IH. by destruct (list_find P l) as [[j z]|].
Qed.

(** X4. [remove_process] then [get_process]: the pid removed is found no more,
    every other pid finds the same process as before, and removing a pid that
    names no process changes nothing. *)
Theorem get_process_after_remove k w :
  get_process (ctrl (remove_process k w)) k = None /\
  (forall k', k' <> k ->
     snd <$> get_process (ctrl (remove_process k w)) k'
     = snd <$> get_process (ctrl w) k') /\
  (get_process (ctrl w) k = None -> remove_process k w = w).
Proof.
  unfold get_process, remove_process.
  change (processes (ctrl (set_procs ?l w))) with l.
  change (processes (ctrl w)) with (procs w).
  split; [|split].
  - apply list_find_None, Forall_forall. intros p Hp.
    by apply list_elem_of_filter in Hp as [Hp _].
  - intros k' Hk. apply list_find_filter_ne. intros x Hx. congruence.
  - intros Hnone. apply list_find_None in Hnone.
    assert (filter (fun p => pid p <> k) (procs w) = procs w) as ->.
    { induction (procs w) as [|p l IH]; [done|].
      apply Forall_cons in Hnone as [Hp Hl].
      rewrite filter_cons_True by done. by rewrite IH. }
    by destruct w as [[] ? ? ? ? ?].
Qed.

Lemma get_process_after_remove_witness :
  remove_process 7 (three_processes []) = three_processes [].
Proof.
  destruct (get_process_after_remove 7 (three_processes [])) as (_ & _ & H).
  apply H. vm_compute. reflexivity.
Defined.

(** ** The failure handler *)

(** X5. [trigger_failure] on a pid that names no process or a process already
    failed changes nothing and emits nothing; otherwise it marks the first
    process with that pid, and only it, and emits an update and a log line.
    Triggering the same failure twice is the same as once. *)
Theorem trigger_failure_once k w :
  (get_process (ctrl w) k = None -> handle_trigger_failure k w = w) /\
  (forall i p, get_process (ctrl w) k = Some (i, p) -> is_failed p = true ->
     handle_trigger_failure k w = w) /\
  (forall i p, get_process (ctrl w) k = Some (i, p) -> is_failed p = false ->
     procs (handle_trigger_failure k w) = <[i := simulate_failure p]> (procs w) /\
     emitted (handle_trigger_failure k w)
     = emitted w
       ++ [EvUpdate (get_all_states (ctrl (handle_trigger_failure k w)));
           EvLog (MsgFailure (custom_name p)) log_error]) /\
  handle_trigger_failure k (handle_trigger_failure k w) = handle_trigger_failure k w.
Proof.
  split; [|split; [|split]].
  - intros H. unfold handle_trigger_failure. by rewrite H.
  - intros i p H Hf. unfold handle_trigger_failure. by rewrite H, Hf.
  - intros i p H Hf. unfold handle_trigger_failure. rewrite H, Hf.
    apply get_process_lookup in H as [Hl _]. split.
    + change (alter simulate_failure i (procs w) = <[i:=simulate_failure p]> (procs w)).
      apply list_eq. intros j. destruct (decide (i = j)) as [->|Hij].
      * rewrite list_lookup_alter_eq, Hl. simpl.
        rewrite list_lookup_insert_eq; [done|]. by eapply lookup_lt_Some.
      * by rewrite list_lookup_alter_ne, list_lookup_insert_ne.
    + unfold emit_log, emit_update, emit. simpl. by rewrite <- app_assoc.
  - destruct (get_process (ctrl w) k) as [[i p]|] eqn:H.
    + destruct (is_failed p) eqn:Hf.
      * unfold handle_trigger_failure at 2. by rewrite H, Hf.
      * assert (view pid (handle_trigger_failure k w) = view pid w) as Hv.
        { by apply view_handle_trigger_failure. }
        destruct (get_process_pids w (handle_trigger_failure k w) k i p Hv H)
          as (p' & Hget' & _).
        pose proof Hget' as Hl'. apply get_process_lookup in Hl' as [Hl' _].
        assert (is_failed p' = true) as Hf'.
        { unfold handle_trigger_failure in Hl'. rewrite H, Hf in Hl'.
          change (alter simulate_failure i (procs w) !! i = Some p') in Hl'.
          rewrite list_lookup_alter_eq in Hl'.
          apply get_process_lookup in H as [Hl _]. rewrite Hl in Hl'.
          by injection Hl' as <-. }
        unfold handle_trigger_failure at 1. by rewrite Hget', Hf'.
    + unfold handle_trigger_failure at 2. rewrite H.
      unfold handle_trigger_failure. by rewrite H.
Qed.

Lemma trigger_failure_once_witness :
  handle_trigger_failure 9 (three_processes []) = three_processes [].
Proof.
  destruct (trigger_failure_once 9 (three_processes [])) as (H & _).
  apply H. vm_compute. reflexivity.
Defined.

(** ** What a checkpoint run leaves alone *)

(** X6. Whatever arrives while it sleeps, [initiate_checkpoint] changes no pid,
    name, state dict, counter or message count of any process, neither the
    number of processes nor the settings of the controller. *)
Theorem checkpoint_keeps_data env w :
  view identity (initiate_checkpoint env w).1 = view identity w /\
  view captured (initiate_checkpoint env w).1 = view captured w /\
  length (procs (initiate_checkpoint env w).1) = length (procs w) /\
  config (initiate_checkpoint env w).1 = config w.
Proof.
  split; [|split; [|split]].
  - by apply view_initiate_checkpoint.
  - by apply view_initiate_checkpoint.
  - rewrite <- !(length_view pid). f_equal. by apply view_initiate_checkpoint.
  - apply config_initiate_checkpoint.
Qed.

(** A failed process stays as it is through the yields and the loops. *)
Lemma kept_handle_trigger_failure k w i p :
  procs w !! i = Some p -> is_failed p = true ->
  procs (handle_trigger_failure k w) !! i = Some p.
Proof.
  intros Hl Hf. unfold handle_trigger_failure.
  destruct (get_process (ctrl w) k) as [[j q]|] eqn:Hget; [|done].
  destruct (is_failed q) eqn:Hq; [done|].
  change (alter simulate_failure j (procs w) !! i = Some p).
  apply get_process_lookup in Hget as [Hj _].
  rewrite list_lookup_alter_ne; [done|]. intros ->. congruence.
Qed.

Lemma kept_sleep w i p :
  procs w !! i = Some p -> is_failed p = true -> procs (sleep w) !! i = Some p.
Proof.
  intros Hl Hf. unfold sleep. destruct (arrivals w) as [|now later]; [done|].
  change (procs w) with (procs (set_arrivals later w)) in Hl.
  revert Hl. generalize (set_arrivals later w). clear w.
  induction now as [|k ks IH]; intros w Hl; simpl; [done|].
  apply IH. by apply kept_handle_trigger_failure.
Qed.

Lemma kept_tentative_step env j st i p :
  procs st.1 !! i = Some p -> is_failed p = true ->
  procs (tentative_step env j st).1 !! i = Some p.
Proof.
  destruct st as [w acc]. simpl. intros Hl Hf. unfold tentative_step.
  destruct (procs w !! j) as [q|] eqn:Hq; [|done].
  destruct (is_failed q) eqn:Hfq; [done|]. simpl fst.
  apply kept_sleep; [|done].
  change (procs (emit_log ?m ?t (emit_update ?x))) with (procs x).
  rewrite procs_update_process. change (procs (set_ticks _ _)) with (procs w).
  rewrite list_lookup_alter_ne; [done|]. intros ->. congruence.
Qed.

Lemma kept_tentative_loop env idxs st i p :
  procs st.1 !! i = Some p -> is_failed p = true ->
  procs (tentative_loop env idxs st).1 !! i = Some p.
Proof.
  revert st. induction idxs as [|j idxs IH]; intros st Hl Hf; [done|].
  rewrite tentative_loop_cons. apply IH; [|done]. by apply kept_tentative_step.
Qed.

Lemma kept_commit_loop tent w i p :
  i ∉ tent.*1 -> procs w !! i = Some p -> is_failed p = true ->
  procs (fold_left commit_step tent w) !! i = Some p.
Proof.
  revert w. induction tent as [|[j ck] tent IH]; intros w Hi Hl Hf; [done|].
  simpl. apply not_elem_of_cons in Hi as [Hij Hi]. apply IH; [done| |done].
  destruct (procs w !! j) as [q|]; [|done].
  apply kept_sleep; [|done].
  change (procs (emit_log ?m ?t (emit_update ?x))) with (procs x).
  rewrite procs_update_process. by rewrite list_lookup_alter_ne.
Qed.

Lemma kept_abort_loop tent w i p :
  i ∉ tent.*1 -> procs w !! i = Some p ->
  procs (fold_left abort_step tent w) !! i = Some p.
Proof.
  revert w. induction tent as [|[j ck] tent IH]; intros w Hi Hl; [done|].
  simpl. apply not_elem_of_cons in Hi as [Hij Hi]. apply IH; [done|].
  unfold abort_step. rewrite procs_update_process. by rewrite list_lookup_alter_ne.
Qed.

Lemma checkpoint_keeps_failed env w i p :
  procs w !! i = Some p -> is_failed p = true ->
  procs (initiate_checkpoint env w).1 !! i = Some p.
Proof.
  intros Hl Hf.
  assert (i ∉ (phase1 env w).2.*1) as Hnot.
  { rewrite phase1_collects. unfold participant, at_turn, alive.
    rewrite (kept_tentative_loop env (seq 0 i) (phase1_start w, []) i p); [|..].
    - rewrite Hf. done.
    - simpl. unfold phase1_start. by apply kept_sleep.
    - done. }
  assert (procs (phase1 env w).1 !! i = Some p) as Hph.
  { unfold phase1. apply kept_tentative_loop; [|done].
    simpl. unfold phase1_start. by apply kept_sleep. }
  unfold initiate_checkpoint.
  destruct (phase1 env w) as [w1 tent]. simpl in Hnot, Hph.
  cbv zeta. simpl fst.
  change (procs (emit_update (set_procs ?l ?x))) with l.
  rewrite list_lookup_fmap.
  assert (procs (sleep (phase2 (all_acks (sleep w1) tent) (sleep w1) tent)) !! i
          = Some p) as ->.
  { apply kept_sleep; [|done]. unfold phase2.
    destruct (all_acks (sleep w1) tent).
    - apply kept_commit_loop; [done| |done]. apply kept_sleep; [|done].
      change (procs (emit_log ?m ?t ?x)) with (procs x). by apply kept_sleep.
    - apply kept_abort_loop; [done|].
      change (procs (emit_log ?m ?t ?x)) with (procs x). by apply kept_sleep. }
  simpl. unfold finalize. by rewrite Hf.
Qed.

Lemma checkpoint_finalized env w p' :
  p' ∈ procs (initiate_checkpoint env w).1 -> is_failed p' = false ->
  status p' = running /\ checkpoint_type p' = None.
Proof.
  intros Hin Hf. unfold initiate_checkpoint in Hin.
  destruct (phase1 env w) as [w1 tent]. cbv zeta in Hin. simpl fst in Hin.
  change (procs (emit_update (set_procs ?l ?x))) with l in Hin.
  apply list_elem_of_fmap in Hin as (q & -> & _).
  unfold finalize in *. destruct (is_failed q) eqn:Hq; [congruence|done].
Qed.

(** X7. A process that is failed when the run starts comes out of
    [initiate_checkpoint] exactly as it went in, on either path and whatever
    arrives meanwhile; and every process that is not failed when the run ends
    has status [running] and no pending checkpoint kind. *)
Theorem checkpoint_statuses env w :
  (forall i p, procs w !! i = Some p -> is_failed p = true ->
     procs (initiate_checkpoint env w).1 !! i = Some p) /\
  (forall p', p' ∈ procs (initiate_checkpoint env w).1 -> is_failed p' = false ->
     status p' = running /\ checkpoint_type p' = None).
Proof.
  split.
  - intros i p. apply checkpoint_keeps_failed.
  - intros p'. apply checkpoint_finalized.
Qed.

Lemma checkpoint_statuses_witness :
  exists p, procs (handle_trigger_failure 1 (three_processes [[]; [0%Z]])) !! 1 = Some p /\
    procs (initiate_checkpoint sample_env
             (handle_trigger_failure 1 (three_processes [[]; [0%Z]]))).1 !! 1 = Some p.
Proof.
  assert (exists p,
            procs (handle_trigger_failure 1 (three_processes [[]; [0%Z]])) !! 1 = Some p /\
            is_failed p = true) as (p & Hl & Hf).
  { vm_compute. eexists. split; reflexivity. }
  exists p. split; [exact Hl|].
  destruct (checkpoint_statuses sample_env
              (handle_trigger_failure 1 (three_processes [[]; [0%Z]]))) as [H _].
  exact (H 1 p Hl Hf).
Defined.

(** ** What a committed checkpoint holds *)

Lemma tentative_step_pairs env i st (v : list (State * gmap Z Z * gmap Z Z * Z)) :
  view (fun p => (captured p, pid p)) st.1 = v ->
  Forall (fun x => v !! x.1 = Some (snapshot x.2, ckpt_pid x.2)) st.2 ->
  Forall (fun x => v !! x.1 = Some (snapshot x.2, ckpt_pid x.2))
    (tentative_step env i st).2.
Proof.
  destruct st as [w acc]. simpl. intros Hv Hacc. unfold tentative_step.
  destruct (procs w !! i) as [p|] eqn:Hp; [|done].
  destruct (is_failed p); [done|]. simpl snd.
  apply Forall_app. split; [done|]. apply Forall_singleton. simpl.
  rewrite <- Hv. unfold view. by rewrite list_lookup_fmap, Hp.
Qed.

Lemma tentative_loop_pairs env idxs st (v : list (State * gmap Z Z * gmap Z Z * Z)) :
  view (fun p => (captured p, pid p)) st.1 = v ->
  Forall (fun x => v !! x.1 = Some (snapshot x.2, ckpt_pid x.2)) st.2 ->
  Forall (fun x => v !! x.1 = Some (snapshot x.2, ckpt_pid x.2))
    (tentative_loop env idxs st).2.
Proof.
  revert st. induction idxs as [|i idxs IH]; intros st Hv Hacc; [done|].
  rewrite tentative_loop_cons. apply IH.
  - by rewrite view_tentative_step.
  - by apply tentative_step_pairs.
Qed.

(** Every pair collected in phase 1 holds the state dict, the counters and
    the pid of its process. *)
Lemma phase1_pairs env w :
  Forall (fun x => view (fun p => (captured p, pid p)) w !! x.1
                   = Some (snapshot x.2, ckpt_pid x.2)) (phase1 env w).2.
Proof.
  unfold phase1. apply tentative_loop_pairs; [|done]. simpl.
  unfold phase1_start.
  by rewrite view_sleep.
Qed.

(** The history of a process after a run: the old one, followed on the
    Commit path by the checkpoint of the process if it took part. *)
Lemma initiate_checkpoint_history env w i p :
  procs w !! i = Some p ->
  exists p' cks,
    procs (initiate_checkpoint env w).1 !! i = Some p' /\
    checkpoints p' = checkpoints p ++ cks /\
    Forall (fun ck => ckpt_type ck = permanent /\ ckpt_pid ck = pid p /\
                      snapshot ck = captured p) cks /\
    length cks
    = (if (initiate_checkpoint env w).2 && participant env w i then 1 else 0).
Proof.
  intros Hp.
  pose proof (initiate_checkpoint_histories env w) as Hh.
  assert (view checkpoints w !! i = Some (checkpoints p)) as Hv
    by (unfold view; by rewrite list_lookup_fmap, Hp).
  destruct (initiate_checkpoint env w).2.
  - destruct (committed_lookup (phase1 env w).2 _ i _
                (phase1_collected_NoDup env w) Hv) as (cks & Hck & Hcks & Hlen).
    rewrite <- Hh in Hck. unfold view in Hck. rewrite list_lookup_fmap in Hck.
    apply fmap_Some in Hck as (p' & Hp' & Hc).
    exists p', cks. split; [done|]. split; [by symmetry|]. split.
    + rewrite Hcks. apply Forall_fmap, Forall_forall. intros [j ck] Hin.
      apply list_elem_of_filter in Hin as [Hj Hin]. simpl in Hj. subst j.
      pose proof (phase1_pairs env w) as Hpairs.
      rewrite Forall_forall in Hpairs. specialize (Hpairs _ Hin). simpl in Hpairs.
      unfold view in Hpairs. rewrite list_lookup_fmap, Hp in Hpairs.
      simpl in *. injection Hpairs as Hs Hsent Hrcvd Hpid.
      unfold snapshot, captured. simpl. split; [done|]. split; congruence.
    + rewrite Hlen. simpl. destruct (participant env w i) eqn:Hpart.
      * rewrite bool_decide_eq_true_2; [done|]. by apply phase1_collects.
      * rewrite bool_decide_eq_false_2; [done|]. rewrite phase1_collects. congruence.
  - rewrite <- Hh in Hv. unfold view in Hv. rewrite list_lookup_fmap in Hv.
    apply fmap_Some in Hv as (p' & Hp' & Hc).
    exists p', []. rewrite app_nil_r. by repeat split.
Qed.

(** X8. After a run that returns [true], the last history entry of every
    participant is permanent, carries the pid of the process and holds the
    state dict and the counters the process has when the run ends, whatever
    arrived meanwhile. *)
Theorem committed_snapshot env w i p' :
  (initiate_checkpoint env w).2 = true -> participant env w i = true ->
  procs (initiate_checkpoint env w).1 !! i = Some p' ->
  exists ck, last (checkpoints p') = Some ck /\
    own_permanent p' ck /\ snapshot ck = captured p'.
Proof.
  intros Hres Hpart Hp'.
  assert (exists p, procs w !! i = Some p) as [p Hp].
  { apply lookup_lt_is_Some. apply lookup_lt_Some in Hp'.
    rewrite <- (length_view pid) in *.
    by rewrite view_initiate_checkpoint in Hp'. }
  destruct (initiate_checkpoint_history env w i p Hp)
    as (q & cks & Hq & Hc & Hall & Hlen).
  rewrite Hp' in Hq. injection Hq as <-.
  rewrite Hres, Hpart in Hlen. simpl in Hlen.
  destruct cks as [|ck [|? ?]]; try done.
  apply Forall_singleton in Hall as (Ht & Hpid & Hs).
  assert (view (fun p => (captured p, pid p)) (initiate_checkpoint env w).1 !! i
          = view (fun p => (captured p, pid p)) w !! i) as Hv
    by (by rewrite view_initiate_checkpoint).
  unfold view in Hv. rewrite !list_lookup_fmap, Hp, Hp' in Hv.
  apply (inj Some) in Hv. apply pair_equal_spec in Hv as [Hcap Hpid'].
  exists ck. rewrite Hc, last_snoc. split; [done|]. unfold own_permanent.
  split; [split; congruence|congruence].
Qed.

Lemma committed_snapshot_witness :
  exists p' ck,
    procs (initiate_checkpoint sample_env (three_processes [[]; [1%Z]])).1 !! 2
    = Some p' /\
    last (checkpoints p') = Some ck /\ snapshot ck = captured p'.
Proof.
  assert (exists p',
            procs (initiate_checkpoint sample_env (three_processes [[]; [1%Z]])).1 !! 2
            = Some p') as [p' Hp'].
  { vm_compute. eexists. reflexivity. }
  destruct (committed_snapshot sample_env (three_processes [[]; [1%Z]]) 2 p')
    as (ck & Hl & _ & Hs);
    [vm_compute; reflexivity|vm_compute; reflexivity|exact Hp'|].
  exists p', ck. by repeat split.
Defined.

(** ** What a recovery leaves alone *)

Lemma view_write {A} (f : Process -> A) i q w p :
  procs w !! i = Some p -> f q = f p ->
  view f (update_process i (fun _ => q) w) = view f w.
Proof.
  intros Hp Hq. unfold view. rewrite procs_update_process.
  apply list_eq. intros j. rewrite !list_lookup_fmap.
  destruct (decide (i = j)) as [->|Hij].
  - rewrite list_lookup_alter_eq, Hp. simpl. by rewrite Hq.
  - by rewrite list_lookup_alter_ne.
Qed.

Section RecoveryFrame.

Context {A : Type} (f : Process -> A).
Hypothesis f_status : forall s p, f (set_status s p) = f p.
Hypothesis f_failed : forall b p, f (set_is_failed b p) = f p.
Hypothesis f_state : forall s p, f (set_state s p) = f p.
Hypothesis f_sent : forall m p, f (set_sent_counter m p) = f p.
Hypothesis f_rcvd : forall m p, f (set_rcvd_counter m p) = f p.

Lemma f_restored p : f (restore_from_checkpoint p).1 = f p.
Proof.
  unfold restore_from_checkpoint. destruct (last (checkpoints p)); [|done].
  simpl. by rewrite f_status, f_failed, f_rcvd, f_sent, f_state.
Qed.

Lemma view_restore_step w i : view f (restore_step w i) = view f w.
Proof.
  unfold restore_step. destruct (procs w !! i) as [p|] eqn:Hp; [|done].
  pose proof (f_restored p) as Hf.
  destruct (restore_from_checkpoint p) as [p' r]. simpl in Hf.
  pose proof (view_write f i p' w p Hp Hf) as Hw.
  destruct r as [id|]; [|done]. destruct (truthy (Some id)); [|done].
  change (view f (sleep (emit_log (MsgRestored (custom_name p') id
            (computation_step (state p'))) log_recovery
            (update_process i (fun _ => p') w))) = view f w).
  by rewrite view_sleep.
Qed.

Lemma view_restore_loop idxs w : view f (fold_left restore_step idxs w) = view f w.
Proof.
  revert w. induction idxs as [|i idxs IH]; intros w; [done|].
  simpl. by rewrite IH, view_restore_step.
Qed.

Lemma view_initiate_recovery k w : view f (initiate_recovery k w) = view f w.
Proof.
  unfold initiate_recovery.
  destruct (get_process (ctrl w) k) as [[i fp]|]; [|done].
  change (view f (emit_log ?m ?t (emit_update (set_procs ?l ?x)))) with (f <$> l).
  rewrite <- list_fmap_compose.
  transitivity (view f (sleep (fold_left restore_step
     (seq 0 (length (procs (update_process i (set_is_failed false)
        (sleep (emit_log (MsgRecoveryInitiated (custom_name fp)) log_recovery w))))))
     (update_process i (set_is_failed false)
        (sleep (emit_log (MsgRecoveryInitiated (custom_name fp)) log_recovery w)))))).
  { unfold view. apply list_fmap_ext. intros j p _. simpl. apply f_status. }
  rewrite view_sleep, view_restore_loop by done.
  rewrite view_update_process by done. by rewrite view_sleep.
Qed.

End RecoveryFrame.

Lemma config_restore_loop idxs w : config (fold_left restore_step idxs w) = config w.
Proof.
  revert w. induction idxs as [|i idxs IH]; intros w; [done|].
  simpl. rewrite IH. unfold restore_step.
  destruct (procs w !! i) as [p|]; [|done].
  destruct (restore_from_checkpoint p) as [p' r].
  destruct r as [id|]; [|done]. destruct (truthy (Some id)); [|done].
  change (config (sleep (emit_log (MsgRestored (custom_name p') id
            (computation_step (state p'))) log_recovery
            (update_process i (fun _ => p') w))) = config w).
  by rewrite config_sleep.
Qed.

(** X12. Whatever arrives while it sleeps, and whichever pid is named,
    [initiate_recovery] changes no history, no pid or name, no pending
    checkpoint kind and no message count (the counts of messages sent and
    received are not rolled back), neither the number of processes nor the
    settings of the controller. *)
Theorem recovery_keeps_histories k w :
  view checkpoints (initiate_recovery k w) = view checkpoints w /\
  view identity (initiate_recovery k w) = view identity w /\
  view checkpoint_type (initiate_recovery k w) = view checkpoint_type w /\
  length (procs (initiate_recovery k w)) = length (procs w) /\
  config (initiate_recovery k w) = config w.
Proof.
  split; [|split; [|split; [|split]]]; try (by apply view_initiate_recovery).
  - rewrite <- !(length_view pid). f_equal. by apply view_initiate_recovery.
  - unfold initiate_recovery.
    destruct (get_process (ctrl w) k) as [[i fp]|]; [|done].
    change (config (emit_log ?m ?t (emit_update (set_procs ?l ?x)))) with (config x).
    rewrite config_sleep, config_restore_loop.
    change (config (update_process ?i ?g ?x)) with (config x).
    by rewrite config_sleep.
Qed.

(** ** Recovery brings back the last committed checkpoint *)

Lemma restored_captured p ck :
  last (checkpoints p) = Some ck -> captured (restored p) = snapshot ck.
Proof.
  intros Hl. unfold restored, restore_from_checkpoint. by rewrite Hl.
Qed.

(** X13. Scenario C in general.  After a run that returned [true], as long as no
    history has changed since, a recovery without arrivals gives every
    participant of that run the state dict and the counters it had when the
    run took place, clears its failure flag and sets its status to
    [running], whatever happened to the process in between. *)
Theorem recovery_returns_to_checkpoint env w w2 k j fp i p :
  (initiate_checkpoint env w).2 = true -> participant env w i = true ->
  procs w !! i = Some p ->
  view checkpoints w2 = view checkpoints (initiate_checkpoint env w).1 ->
  arrivals w2 = [] -> get_process (ctrl w2) k = Some (j, fp) ->
  exists p2, procs (initiate_recovery k w2) !! i = Some p2 /\
    captured p2 = captured p /\ is_failed p2 = false /\ status p2 = running.
Proof.
  intros Hres Hpart Hp Hv Hidle Hget.
  destruct (initiate_checkpoint_history env w i p Hp)
    as (p1 & cks & Hp1 & Hc & Hall & Hlen).
  rewrite Hres, Hpart in Hlen. simpl in Hlen.
  destruct cks as [|ck [|? ?]]; try done.
  apply Forall_singleton in Hall as (_ & _ & Hs).
  assert (exists q, procs w2 !! i = Some q /\ checkpoints q = checkpoints p ++ [ck])
    as (q & Hq & Hcq).
  { assert (view checkpoints w2 !! i = Some (checkpoints p1)) as Hi
      by (rewrite Hv; unfold view; by rewrite list_lookup_fmap, Hp1).
    unfold view in Hi. rewrite list_lookup_fmap in Hi.
    apply fmap_Some in Hi as (q & Hq & Hcq). exists q. split; [done|]. congruence. }
  rewrite (initiate_recovery_idle w2 k j fp Hidle Hget).
  rewrite list_lookup_fmap.
  assert (exists q', alter (set_is_failed false) j (procs w2) !! i = Some q' /\
            checkpoints q' = checkpoints q) as (q' & -> & Hcq').
  { destruct (decide (j = i)) as [->|Hji].
    - rewrite list_lookup_alter_eq, Hq. by eexists.
    - rewrite list_lookup_alter_ne by done. by eexists. }
  simpl. eexists. split; [done|].
  assert (last (checkpoints q') = Some ck) as Hlast
    by (by rewrite Hcq', Hcq, last_snoc).
  split; [|split; [|done]].
  - change (captured (restored q') = captured p).
    by rewrite (restored_captured q' ck).
  - simpl. apply restored_flag. rewrite Hcq', Hcq. by destruct (checkpoints p).
Qed.

Lemma recovery_returns_to_checkpoint_witness :
  exists p p2,
    procs (three_processes []) !! 0 = Some p /\
    procs (initiate_recovery 0 (handle_trigger_failure 0 after_checkpoint_and_step)) !! 0
    = Some p2 /\
    captured p2 = captured p.
Proof.
  assert (exists p, procs (three_processes []) !! 0 = Some p) as [p Hp].
  { vm_compute. eexists. reflexivity. }
  destruct (recovery_returns_to_checkpoint sample_env (three_processes [])
              (handle_trigger_failure 0 after_checkpoint_and_step) 0 0
              (default p (procs (handle_trigger_failure 0 after_checkpoint_and_step) !! 0))
              0 p)
    as (p2 & Hp2 & Hcap & _);
    [vm_compute; reflexivity|vm_compute; reflexivity|exact Hp
    |vm_compute; reflexivity|reflexivity|vm_compute; reflexivity|].
  exists p, p2. by repeat split.
Defined.

(** ** Recovery twice *)

Lemma arrivals_restore_loop_idle idxs w :
  arrivals w = [] -> arrivals (fold_left restore_step idxs w) = [].
Proof.
  revert w. induction idxs as [|i idxs IH]; intros w Hidle; [done|].
  simpl. apply IH. by apply restore_step_idle.
Qed.

Lemma arrivals_initiate_recovery_idle k w :
  arrivals w = [] -> arrivals (initiate_recovery k w) = [].
Proof.
  intros Hidle. unfold initiate_recovery.
  destruct (get_process (ctrl w) k) as [[i fp]|]; [|done].
  change (arrivals (emit_log ?m ?t (emit_update (set_procs ?l ?x))))
    with (arrivals x).
  rewrite (sleep_idle (emit_log _ _ w)) by done.
  rewrite sleep_idle; by apply arrivals_restore_loop_idle.
Qed.

Lemma restored_twice p :
  set_status running (restored (set_status running (restored p)))
  = set_status running (restored p).
Proof.
  unfold restored, restore_from_checkpoint.
  destruct (last (checkpoints p)) as [ck|] eqn:Hl; simpl; rewrite Hl; done.
Qed.

Lemma restored_cleared p :
  set_is_failed false (set_status running (restored (set_is_failed false p)))
  = set_status running (restored (set_is_failed false p)).
Proof.
  unfold restored, restore_from_checkpoint. simpl.
  by destruct (last (checkpoints p)).
Qed.

(** X14. Without arrivals, a second [initiate_recovery] on the same pid right
    after the first changes no process: the rollback is idempotent. *)
Theorem recovery_twice k w i fp :
  arrivals w = [] -> get_process (ctrl w) k = Some (i, fp) ->
  procs (initiate_recovery k (initiate_recovery k w)) = procs (initiate_recovery k w).
Proof.
  intros Hidle Hget.
  assert (view pid (initiate_recovery k w) = view pid w) as Hv
    by (by apply view_initiate_recovery).
  destruct (get_process_pids w _ k i fp Hv Hget) as (fp' & Hget' & _).
  rewrite (initiate_recovery_idle _ k i fp'
             (arrivals_initiate_recovery_idle k w Hidle) Hget').
  rewrite (initiate_recovery_idle w k i fp Hidle Hget).
  apply list_eq. intros j. rewrite !list_lookup_fmap.
  destruct (decide (i = j)) as [->|Hij].
  - rewrite !list_lookup_alter_eq, list_lookup_fmap, list_lookup_alter_eq.
    destruct (procs w !! j) as [q|]; [|done]. simpl.
    by rewrite restored_cleared, restored_twice.
  - rewrite !list_lookup_alter_ne, list_lookup_fmap, list_lookup_alter_ne by done.
    destruct (procs w !! j) as [q|]; [|done]. simpl. by rewrite restored_twice.
Qed.

Lemma recovery_twice_witness :
  procs (initiate_recovery 0 (initiate_recovery 0 checkpointed_then_failed))
  = procs (initiate_recovery 0 checkpointed_then_failed).
Proof.
  eapply (recovery_twice 0 checkpointed_then_failed);
    [reflexivity|vm_compute; reflexivity].
Defined.

(** ** Histories through every operation *)

Lemma compute_all_view {A} (f : Process -> A) env x l k :
  (forall s p, f (set_state s p) = f p) ->
  (forall n p, f (set_messages_sent n p) = f p) ->
  (forall n p, f (set_messages_received n p) = f p) ->
  f <$> (compute_all env x l k).1 = f <$> l.
Proof.
  intros Hs Hm Hr. revert k. induction l as [|p l IH]; intros k; [done|]. simpl.
  destruct (simulate_computation (random_random env) k x p) as [p1 k1] eqn:H1.
  specialize (IH k1). destruct (compute_all env x l k1) as [l2 k2].
  change ((p1 :: l2, k2).1) with (p1 :: l2). change ((l2, k2).1) with l2 in IH.
  rewrite !fmap_cons, IH. f_equal.
  unfold simulate_computation in H1. destruct (is_failed p).
  - by injection H1 as <- _.
  - injection H1 as <- _.
    destruct (0.7 <? _)%float; destruct (0.7 <? _)%float;
      rewrite ?Hr, ?Hm, ?Hs; done.
Qed.

Lemma step_computation_cases env w :
  world_of (step_computation env w) = advance_all env w \/
  world_of (step_computation env w)
  = (initiate_checkpoint env (sleep (advance_all env w))).1.
Proof.
  unfold step_computation.
  destruct (auto_mode (ctrl (advance_all env w))); [|by left].
  destruct (checkpoint_frequency (ctrl (advance_all env w)) =? 0)%Z; [by left|].
  destruct (step_count (ctrl (advance_all env w))
            mod checkpoint_frequency (ctrl (advance_all env w)) =? 0)%Z;
    [by right|by left].
Qed.

Lemma view_advance_all {A} (f : Process -> A) env w :
  (forall s p, f (set_state s p) = f p) ->
  (forall n p, f (set_messages_sent n p) = f p) ->
  (forall n p, f (set_messages_received n p) = f p) ->
  view f (advance_all env w) = view f w.
Proof.
  intros Hs Hm Hr. destruct (advance_all_spec env w) as (_ & Hprocs & _).
  unfold view. rewrite Hprocs. by apply compute_all_view.
Qed.

Lemma prefix_lookup (v v' : list (list Checkpoint)) :
  length v' = length v ->
  (forall i h, v !! i = Some h -> exists h', v' !! i = Some h' /\ h `prefix_of` h') ->
  Forall2 prefix v v'.
Proof.
  intros Hlen H. apply Forall2_same_length_lookup. split; [done|].
  intros i h h' Hh Hh'. destruct (H i h Hh) as (h'' & Hh'' & Hpre). congruence.
Qed.

(** The histories before and after a run, entry by entry. *)
Lemma checkpoint_histories_prefix env w :
  Forall2 prefix (view checkpoints w) (view checkpoints (initiate_checkpoint env w).1).
Proof.
  apply prefix_lookup.
  - rewrite !length_view. rewrite <- !(length_view pid). f_equal.
    by apply view_initiate_checkpoint.
  - intros i h Hh. unfold view in Hh. rewrite list_lookup_fmap in Hh.
    apply fmap_Some in Hh as (p & Hp & ->).
    destruct (initiate_checkpoint_history env w i p Hp) as (p' & cks & Hp' & Hc & _).
    exists (checkpoints p'). unfold view. rewrite list_lookup_fmap, Hp'.
    split; [done|]. rewrite Hc. by apply prefix_app_r.
Qed.

(** X15. Histories are append-only.  No operation of the engine removes or
    changes a committed checkpoint: after [initiate_checkpoint] and after
    [step_computation] every history extends the one before, and
    [initiate_recovery], the failure handler and [add_process] leave every
    history as it is; [remove_process] only drops whole processes. *)
Theorem histories_append_only env w :
  Forall2 prefix (view checkpoints w)
    (view checkpoints (initiate_checkpoint env w).1) /\
  Forall2 prefix (view checkpoints w)
    (view checkpoints (world_of (step_computation env w))) /\
  (forall k, view checkpoints (initiate_recovery k w) = view checkpoints w) /\
  (forall k, view checkpoints (handle_trigger_failure k w) = view checkpoints w) /\
  (forall name, exists p,
     view checkpoints (add_process env name w).1 = view checkpoints w ++ [checkpoints p]
     /\ checkpoints p = []) /\
  (forall k, sublist (view checkpoints (remove_process k w)) (view checkpoints w)).
Proof.
  split; [|split; [|split; [|split; [|split]]]].
  - apply checkpoint_histories_prefix.
  - assert (view checkpoints (advance_all env w) = view checkpoints w) as Ha
      by (by apply view_advance_all).
    destruct (step_computation_cases env w) as [-> | ->].
    + rewrite Ha. apply Forall2_same_length_lookup. split; [done|].
      intros i h h' Hh Hh'. by assert (h = h') as -> by congruence.
    + rewrite <- Ha, <- (view_sleep checkpoints) by done.
      apply checkpoint_histories_prefix.
  - intros k. by apply view_initiate_recovery.
  - intros k. by apply view_handle_trigger_failure.
  - intros name.
    destruct (add_process_spec env name w) as (_ & _ & p & Hp & _ & _ & Hc).
    exists p. split; [|done]. unfold view. by rewrite Hp, fmap_app.
  - intros k. unfold view, remove_process.
    change (procs (set_procs ?l w)) with l. apply fmap_sublist, sublist_filter.
Qed.

Lemma histories_ok_view w w' :
  view (fun p => (pid p, checkpoints p)) w' = view (fun p => (pid p, checkpoints p)) w ->
  histories_ok w -> histories_ok w'.
Proof.
  unfold histories_ok, view. intros Hv Hw.
  apply Forall_lookup. intros i p' Hp'.
  assert ((fun p => (pid p, checkpoints p)) <$> procs w !! i
          = Some (pid p', checkpoints p')) as Hi
    by (by rewrite <- list_lookup_fmap, <- Hv, list_lookup_fmap, Hp').
  apply fmap_Some in Hi as (p & Hp & Heq).
  apply pair_equal_spec in Heq as [Hpid Hc].
  rewrite Forall_lookup in Hw. specialize (Hw i p Hp). simpl in Hw.
  rewrite Hc. eapply Forall_impl; [exact Hw|]. intros ck [? ?].
  unfold own_permanent. split; congruence.
Qed.

Lemma histories_ok_initiate_checkpoint env w :
  histories_ok w -> histories_ok (initiate_checkpoint env w).1.
Proof.
  intros Hw. unfold histories_ok in *. apply Forall_lookup. intros i p' Hp'.
  assert (exists p, procs w !! i = Some p) as [p Hp].
  { apply lookup_lt_is_Some. apply lookup_lt_Some in Hp'.
    rewrite <- (length_view pid) in *.
    by rewrite view_initiate_checkpoint in Hp'. }
  destruct (initiate_checkpoint_history env w i p Hp)
    as (q & cks & Hq & Hc & Hall & _).
  rewrite Hp' in Hq. injection Hq as <-.
  assert (pid p' = pid p) as Hpid.
  { assert (view pid (initiate_checkpoint env w).1 !! i = view pid w !! i) as Hv
      by (by rewrite view_initiate_checkpoint).
    unfold view in Hv. rewrite !list_lookup_fmap, Hp, Hp' in Hv. by injection Hv. }
  rewrite Forall_lookup in Hw. specialize (Hw i p Hp). simpl in Hw.
  simpl. rewrite Hc. apply Forall_app. split.
  - eapply Forall_impl; [exact Hw|]. intros ck [? ?].
    unfold own_permanent. split; congruence.
  - eapply Forall_impl; [exact Hall|]. intros ck (? & ? & _).
    unfold own_permanent. split; congruence.
Qed.

(** X16. A history only ever holds permanent checkpoints taken by the process
    that holds it.  Every operation of the engine keeps this, whatever
    arrives during the protocols; it holds in the initial controller. *)
Theorem histories_stay_own_permanent env sched w :
  histories_ok (init_world sched) /\
  (histories_ok w ->
   histories_ok (initiate_checkpoint env w).1 /\
   histories_ok (world_of (step_computation env w)) /\
   (forall k, histories_ok (initiate_recovery k w)) /\
   (forall k, histories_ok (handle_trigger_failure k w)) /\
   (forall name, histories_ok (add_process env name w).1) /\
   (forall k, histories_ok (remove_process k w))).
Proof.
  split; [by constructor|]. intros Hw.
  assert (histories_ok (advance_all env w)) as Ha.
  { apply (histories_ok_view w); [|done]. by apply view_advance_all. }
  split; [|split; [|split; [|split; [|split]]]].
  - by apply histories_ok_initiate_checkpoint.
  - destruct (step_computation_cases env w) as [-> | ->]; [done|].
    apply histories_ok_initiate_checkpoint.
    apply (histories_ok_view (advance_all env w)); [|done]. by apply view_sleep.
  - intros k. apply (histories_ok_view w); [|done]. by apply view_initiate_recovery.
  - intros k. apply (histories_ok_view w); [|done].
    by apply view_handle_trigger_failure.
  - intros name. unfold histories_ok.
    destruct (add_process_spec env name w) as (_ & _ & p & -> & _ & _ & Hc).
    apply Forall_app. split; [done|]. apply Forall_singleton. by rewrite Hc.
  - intros k. unfold histories_ok, remove_process.
    change (procs (set_procs ?l w)) with l.
    apply Forall_forall. intros p Hp. apply list_elem_of_filter in Hp as [_ Hp].
    unfold histories_ok in Hw. rewrite Forall_forall in Hw. by apply Hw.
Qed.

Lemma histories_stay_own_permanent_witness :
  histories_ok (initiate_checkpoint sample_env (three_processes [[]; [1%Z]])).1.
Proof.
  destruct (histories_stay_own_permanent sample_env []
              (three_processes [[]; [1%Z]])) as (_ & H).
  destruct H as (H & _); [|exact H].
  unfold histories_ok. vm_compute. repeat constructor.
Defined.

(** ** One computation step, process by process *)

Lemma simulate_computation_running rnd k x p :
  is_failed p = false ->
  computation_step (state (simulate_computation rnd k x p).1)
  = (computation_step (state p) + 1)%Z /\
  (messages_sent p <= messages_sent (simulate_computation rnd k x p).1
   <= messages_sent p + 1)%Z /\
  (messages_received p <= messages_received (simulate_computation rnd k x p).1
   <= messages_received p + 1)%Z /\
  (simulate_computation rnd k x p).2 = k + 6.
Proof.
  intros Hf. unfold simulate_computation. rewrite Hf.
  destruct (0.7 <? _)%float; destruct (0.7 <? _)%float; simpl; repeat split; lia.
Qed.

Lemma step_computation_progress env w :
  view progress (world_of (step_computation env w))
  = progress <$> (compute_all env (computation_speed (ctrl w)) (procs w) (draws w)).1.
Proof.
  destruct (advance_all_spec env w) as (_ & Hprocs & _).
  rewrite <- Hprocs.
  destruct (step_computation_cases env w) as [-> | ->]; [done|].
  by rewrite view_initiate_checkpoint, view_sleep.
Qed.

(** X18. One [step_computation], in any mode and whatever arrives during an
    automatic checkpoint: a process that is failed keeps its state dict and
    message counts; for every other process the step of its state dict grows
    by exactly 1 and each message count by 0 or 1. *)
Theorem step_advances_running_processes env w i p :
  procs w !! i = Some p ->
  exists p', procs (world_of (step_computation env w)) !! i = Some p' /\
    (is_failed p = true -> progress p' = progress p) /\
    (is_failed p = false ->
     computation_step (state p') = (computation_step (state p) + 1)%Z /\
     (messages_sent p <= messages_sent p' <= messages_sent p + 1)%Z /\
     (messages_received p <= messages_received p' <= messages_received p + 1)%Z).
Proof.
  intros Hp. pose proof (step_computation_progress env w) as Hv.
  set (l := (compute_all env (computation_speed (ctrl w)) (procs w) (draws w)).1) in *.
  assert (exists q, l !! i = Some q) as [q Hq].
  { apply lookup_lt_is_Some. unfold l. rewrite length_compute_all.
    by eapply lookup_lt_Some. }
  assert (view progress (world_of (step_computation env w)) !! i = Some (progress q))
    as Hi by (rewrite Hv; by rewrite list_lookup_fmap, Hq).
  unfold view in Hi. rewrite list_lookup_fmap in Hi.
  apply fmap_Some in Hi as (p' & Hp' & Hpq).
  exists p'. split; [done|].
  destruct (compute_all_lookup env _ _ _ i q Hq) as (p0 & k' & Hp0 & ->).
  rewrite Hp in Hp0. injection Hp0 as <-.
  unfold progress in Hpq. injection Hpq as Hs Hm Hr. split.
  - intros Hf. rewrite simulate_computation_failed in Hs, Hm, Hr by done.
    unfold progress. simpl in *. congruence.
  - intros Hf.
    destruct (simulate_computation_running (random_random env) k'
                (computation_speed (ctrl w)) p Hf) as (H1 & H2 & H3 & _).
    rewrite <- Hs, <- Hm, <- Hr. done.
Qed.

Lemma step_advances_running_processes_witness :
  exists p p',
    procs (handle_trigger_failure 1 auto_world) !! 0 = Some p /\
    procs (world_of (step_computation sample_env (handle_trigger_failure 1 auto_world)))
    !! 0 = Some p' /\
    computation_step (state p') = (computation_step (state p) + 1)%Z.
Proof.
  assert (exists p, procs (handle_trigger_failure 1 auto_world) !! 0 = Some p /\
            is_failed p = false) as (p & Hp & Hf).
  { vm_compute. eexists. split; reflexivity. }
  destruct (step_advances_running_processes sample_env
              (handle_trigger_failure 1 auto_world) 0 p Hp) as (p' & Hp' & _ & H).
  exists p, p'. split; [done|]. split; [done|]. by apply H.
Defined.

(** ** Frequency zero, and stepping by hand *)

(** The first half of [step_computation], in what it shows: the counter grows
    by one, every process is advanced by one step, and nothing else of a
    process changes; no checkpoint run starts. *)
Lemma advance_all_effect env w :
  step_count (ctrl (advance_all env w)) = (step_count (ctrl w) + 1)%Z /\
  Forall2 stepped (procs w) (procs (advance_all env w)) /\
  view standing (advance_all env w) = view standing w /\
  logged MsgPhase1 (advance_all env w) = logged MsgPhase1 w.
Proof.
  destruct (advance_all_spec env w) as (Hcfg & Hprocs & _ & Hlog).
  split; [|split; [|split]].
  - unfold config in Hcfg. by injection Hcfg as ?.
  - rewrite Hprocs. apply compute_all_stepped.
  - by apply view_advance_all.
  - by apply Hlog.
Qed.

(** X19. With checkpoint frequency 0 the modulo of [step_computation] divides by
    zero.  In auto-mode every call raises [ZeroDivisionError] and a sequence
    of calls stops at the first; without auto-mode the frequency is not read
    and the call returns.  In both cases the world the call leaves has the
    step counter grown by one and every process advanced by one step (a
    process that is not failed has its step grown by 1 and each message count
    by 0 or 1, a failed one keeps its state dict and counts), with no
    checkpoint run started and no pid, name, history, failure flag, status or
    pending checkpoint kind changed. *)
Theorem zero_frequency env w :
  checkpoint_frequency (ctrl w) = 0%Z ->
  exists w',
    (auto_mode (ctrl w) = true ->
     step_computation env w = ZeroDivisionError w' /\
     forall n, steps env (S n) w = ZeroDivisionError w') /\
    (auto_mode (ctrl w) = false -> step_computation env w = Returned w') /\
    step_count (ctrl w') = (step_count (ctrl w) + 1)%Z /\
    Forall2 stepped (procs w) (procs w') /\
    view standing w' = view standing w /\
    logged MsgPhase1 w' = logged MsgPhase1 w.
Proof.
  intros Hz. destruct (advance_all_spec env w) as (Hcfg & _).
  assert (auto_mode (ctrl (advance_all env w)) = auto_mode (ctrl w) /\
          checkpoint_frequency (ctrl (advance_all env w)) = 0%Z) as [Ha Hf].
  { unfold config in Hcfg. injection Hcfg as ?. split; congruence. }
  assert (auto_mode (ctrl w) = true ->
          step_computation env w = ZeroDivisionError (advance_all env w)) as Hraise.
  { intros Hauto. unfold step_computation. by rewrite Ha, Hauto, Hf. }
  assert (auto_mode (ctrl w) = false ->
          step_computation env w = Returned (advance_all env w)) as Hret.
  { intros Hauto. unfold step_computation. by rewrite Ha, Hauto. }
  exists (advance_all env w). split; [|split; [done|apply advance_all_effect]].
  intros Hauto. split; [by apply Hraise|]. intros n. simpl. by rewrite Hraise.
Qed.

Lemma zero_frequency_witness :
  let w := start_auto 1.0%float 0%Z (three_processes []) in
  exists w', steps sample_env 3 w = ZeroDivisionError w' /\
    step_count (ctrl w') = 1%Z /\
    Forall2 stepped (procs w) (procs w').
Proof.
  cbv zeta.
  destruct (zero_frequency sample_env (start_auto 1.0%float 0%Z (three_processes [])))
    as (w' & Hauto & _ & Hc & Hs & _); [reflexivity|].
  destruct Hauto as (_ & H); [reflexivity|].
  exists w'. split; [apply H|]. split; [exact Hc|exact Hs].
Defined.

(** X20. Without auto-mode, any number of [step_computation] calls returns,
    whatever the frequency, starts no checkpoint run and changes no history,
    failure flag, status or pending checkpoint kind; the step counter grows
    by one per call. *)
Theorem manual_steps env n : forall w,
  auto_mode (ctrl w) = false ->
  exists w', steps env n w = Returned w' /\
    step_count (ctrl w') = (step_count (ctrl w) + Z.of_nat n)%Z /\
    logged MsgPhase1 w' = logged MsgPhase1 w /\
    view (fun p => (checkpoints p, is_failed p, status p, checkpoint_type p)) w'
    = view (fun p => (checkpoints p, is_failed p, status p, checkpoint_type p)) w.
Proof.
  induction n as [|n IH]; intros w Hauto.
  - exists w. simpl. repeat split; [lia|done..].
  - destruct (advance_all_spec env w) as (Hcfg & _ & _ & Hlog).
    assert (auto_mode (ctrl (advance_all env w)) = false /\
            step_count (ctrl (advance_all env w)) = (step_count (ctrl w) + 1)%Z)
      as [Ha Hc].
    { unfold config in Hcfg. injection Hcfg as ?. split; congruence. }
    assert (step_computation env w = Returned (advance_all env w)) as Hstep.
    { unfold step_computation. by rewrite Ha. }
    destruct (IH (advance_all env w) Ha) as (w' & Hsteps & Hcount & Hlog' & Hv).
    exists w'. simpl. rewrite Hstep. split; [done|]. split; [lia|].
    split; [by rewrite Hlog', Hlog|].
    rewrite Hv. by apply view_advance_all.
Qed.

Lemma manual_steps_witness :
  exists w', steps sample_env 7 (three_processes []) = Returned w' /\
    step_count (ctrl w') = 7%Z.
Proof.
  destruct (manual_steps sample_env 7 (three_processes [])) as (w' & H1 & H2 & _);
    [reflexivity|].
  exists w'. split; [exact H1|exact H2].
Defined.

Lemma steps_cadence_witness :
  exists w', steps sample_env 12 auto_world = Returned w' /\
    Z.of_nat (logged MsgPhase1 w') = 2%Z.
Proof.
  destruct (steps_cadence sample_env 12 auto_world 5) as (w' & H1 & _ & H3);
    [reflexivity|reflexivity|lia|apply Z.leb_le; vm_compute; reflexivity|].
  exists w'. split; [exact H1|]. rewrite H3. vm_compute. reflexivity.
Defined.


(** ** The handlers that run to completion *)

(** X22. The [add_process] handler never reads an attribute of [None]: the pid
    just returned always names a process.  When the pids of the collection
    are below [next_pid], that process is the one just appended and the log
    line carries its name, after one update. *)
Theorem add_handler_finds_process env name s :
  (exists s', handle_add_process env name s = Done s') /\
  (pids_below (world s) ->
   exists p,
     procs (add_process env name (world s)).1 = procs (world s) ++ [p] /\
     handle_add_process env name s
     = Done (mkServer (emit_update (add_process env name (world s)).1)
               (notices s ++ [(S (length (emitted (world s))),
                               NoteAdded (custom_name p), log_info)]))).
Proof.
  split.
  - unfold handle_add_process.
    destruct (add_process_spec env name (world s)) as (Hk & _ & p & Hp & Hpid & _).
    destruct (add_process env name (world s)) as [w k].
    change ((w, k).1) with w in *. change ((w, k).2) with k in *.
    cbv zeta. cbn [world set_world].
    assert (is_Some (get_process (ctrl (emit_update w)) k)) as [[i q] Hq].
    { unfold get_process. apply (list_find_elem_of _ _ p); [|congruence].
      change (processes (ctrl (emit_update w))) with (procs w). rewrite Hp.
      apply elem_of_app. right. by apply list_elem_of_singleton. }
    rewrite Hq. by eexists.
  - intros Hlt.
    destruct (add_process_lookup env name (world s) Hlt) as (p & Hp & Hget & _).
    exists p. split; [done|]. unfold handle_add_process.
    destruct (add_process env name (world s)) as [w k] eqn:Hadd.
    change ((w, k).1) with w in *. change ((w, k).2) with k in *.
    cbv zeta. cbn [world set_world].
    change (get_process (ctrl (emit_update w)) k) with (get_process (ctrl w) k).
    rewrite Hget. unfold notify, set_world. cbn [world notices].
    assert (emitted w = emitted (world s)) as Hem
      by (unfold add_process in Hadd; by injection Hadd as <- _).
    unfold emit_update, emit. cbn [emitted set_emitted].
    rewrite length_app, Hem. simpl length. by rewrite Nat.add_1_r.
Qed.

Lemma add_handler_finds_process_witness :
  exists p,
    procs (add_process sample_env None (three_processes [])).1
    = procs (three_processes []) ++ [p] /\ custom_name p = "Node-3"%string.
Proof.
  destruct (add_handler_finds_process sample_env None (mkServer (three_processes []) []))
    as [_ H].
  assert (exists q,
            procs (add_process sample_env None (three_processes [])).1
            = procs (three_processes []) ++ [q] /\ custom_name q = "Node-3"%string)
    as (q & Hq & Hn).
  { vm_compute. eexists. split; reflexivity. }
  destruct H as (p & Hp & _).
  - apply (bool_decide_unpack (pids_below (three_processes []))).
    vm_compute. exact I.
  - exists p. split; [exact Hp|].
    change (world (mkServer (three_processes []) [])) with (three_processes []) in Hp.
    rewrite Hq in Hp. apply app_inj_tail in Hp as [_ <-]. exact Hn.
Defined.

(** X23. The [remove_process] handler on a pid that names no process changes
    nothing and emits nothing.  Otherwise every process with that pid leaves
    the collection, the others stay in order, the pid is found no more, and
    one update and one log line with the name of the process found are
    emitted. *)
Theorem remove_handler k s :
  (get_process (ctrl (world s)) k = None -> handle_remove_process k s = s) /\
  (forall i p, get_process (ctrl (world s)) k = Some (i, p) ->
     procs (world (handle_remove_process k s))
     = filter (fun q => pid q <> k) (procs (world s)) /\
     get_process (ctrl (world (handle_remove_process k s))) k = None /\
     emitted (world (handle_remove_process k s))
     = emitted (world s)
       ++ [EvUpdate (get_all_states (ctrl (world (handle_remove_process k s))))] /\
     notices (handle_remove_process k s)
     = notices s ++ [(S (length (emitted (world s))),
                      NoteRemoved (custom_name p), log_error)]).
Proof.
  split.
  - intros H. unfold handle_remove_process. by rewrite H.
  - intros i p H. unfold handle_remove_process. rewrite H.
    split; [done|]. split; [|split; [done|]].
    + unfold get_process. apply list_find_None, Forall_forall. intros q Hq.
      change (q ∈ filter (fun q => pid q <> k) (procs (world s))) in Hq.
      by apply list_elem_of_filter in Hq as [Hq _].
    + unfold notify, set_world, emit_update, emit. cbn [notices world emitted set_emitted].
      change (emitted (remove_process k (world s))) with (emitted (world s)).
      rewrite length_app. simpl length. by rewrite Nat.add_1_r.
Qed.

Lemma remove_handler_witness :
  handle_remove_process 5 (mkServer (three_processes []) [])
  = mkServer (three_processes []) [].
Proof.
  destruct (remove_handler 5 (mkServer (three_processes []) [])) as [H _].
  apply H. vm_compute. reflexivity.
Defined.

Lemma run_op_add env name w ks :
  run_op env (w, ks) (Add name)
  = ((add_process env name w).1, ks ++ [(add_process env name w).2]).
Proof. unfold run_op. simpl. by destruct (add_process env name w). Qed.

Lemma run_returns env ops : forall st,
  (fold_left (run_op env) ops st).2
  = st.2 ++ seqZ (next_pid (ctrl st.1)) (Z.of_nat (adds ops)) /\
  next_pid (ctrl (fold_left (run_op env) ops st).1)
  = (next_pid (ctrl st.1) + Z.of_nat (adds ops))%Z.
Proof.
  induction ops as [|o ops IH]; intros [w ks].
  - change (adds []) with 0. simpl. rewrite app_nil_r. split; [done|lia].
  - simpl fold_left. destruct (IH (run_op env (w, ks) o)) as [IH1 IH2].
    rewrite IH1, IH2. destruct o as [name|k].
    + change (adds (Add name :: ops)) with (S (adds ops)).
      rewrite run_op_add. cbn [fst snd].
      destruct (add_process_spec env name w) as (-> & -> & _).
      replace (Z.of_nat (S (adds ops))) with (1 + Z.of_nat (adds ops))%Z by lia.
      rewrite (seqZ_cons (next_pid (ctrl w))) by lia. rewrite <- app_assoc. simpl app.
      replace (Z.succ (next_pid (ctrl w))) with (next_pid (ctrl w) + 1)%Z by lia.
      replace (Z.pred (1 + Z.of_nat (adds ops))) with (Z.of_nat (adds ops)) by lia.
      split; [done|lia].
    + change (adds (Remove k :: ops)) with (adds ops).
      unfold run_op. cbn [fst snd]. split; [done|].
      change (next_pid (ctrl (remove_process k w))) with (next_pid (ctrl w)). done.
Qed.

(** X24. The pids returned by [add_process] are consecutive: over any sequence
    of [add_process] and [remove_process] calls they are [next_pid],
    [next_pid + 1], ... in the order of the calls.  The [reset] handler puts
    [next_pid] back to 0 and empties the collection, so after a reset the
    pids start again from 0 (a pid of before the reset is given out again)
    and are again pairwise distinct in the collection; it keeps the speed and
    the frequency. *)
Theorem reset_restarts_pids env ops s :
  (forall w, (run env ops w).2 = seqZ (next_pid (ctrl w)) (Z.of_nat (adds ops))) /\
  (run env ops (world (handle_reset s))).2 = seqZ 0 (Z.of_nat (adds ops)) /\
  NoDup (pid <$> procs (run env ops (world (handle_reset s))).1) /\
  procs (world (handle_reset s)) = [] /\
  computation_speed (ctrl (world (handle_reset s)))
  = computation_speed (ctrl (world s)) /\
  checkpoint_frequency (ctrl (world (handle_reset s)))
  = checkpoint_frequency (ctrl (world s)).
Proof.
  assert (forall w, (run env ops w).2
                    = seqZ (next_pid (ctrl w)) (Z.of_nat (adds ops))) as Hrun.
  { intros w. unfold run. by destruct (run_returns env ops (w, [])) as [-> _]. }
  split; [done|]. split; [by rewrite Hrun|]. split; [|done].
  assert (pids_ok (world (handle_reset s), [])) as H0.
  { unfold pids_ok. simpl. repeat split; constructor. }
  by destruct (run_ok env ops _ H0) as (Hnd & _).
Qed.

(** X25. The guard of the [step_forward] handler.  While the simulation runs
    unpaused the handler does nothing.  After the [pause] handler it calls
    [step_computation], which grows the step counter by one and advances
    every process by one step.  After the [stop] handler, also when [resume]
    follows, it returns, whatever the frequency, with the step counter grown
    by one and every process advanced by one step (a process that is not
    failed has its step grown by 1 and each message count by 0 or 1, a failed
    one keeps its state dict and counts), with no checkpoint run started and
    no pid, name, history, failure flag, status or pending checkpoint kind
    changed. *)
Theorem step_forward_guard env s :
  let stepped_once (w' : World) :=
    step_count (ctrl w') = (step_count (ctrl (world s)) + 1)%Z /\
    Forall2 stepped (procs (world s)) (procs w') in
  let stepped_by_hand (s' : Server) :=
    exists w', handle_step_forward env (world s') = Returned w' /\
      stepped_once w' /\
      view standing w' = view standing (world s) /\
      logged MsgPhase1 w' = logged MsgPhase1 (world s) in
  (is_running (ctrl (world s)) = true -> is_paused (ctrl (world s)) = false ->
   handle_step_forward env (world s) = Returned (world s)) /\
  handle_step_forward env (world (handle_pause s))
  = step_computation env (world (handle_pause s)) /\
  stepped_once (world_of (handle_step_forward env (world (handle_pause s)))) /\
  stepped_by_hand (handle_stop s) /\
  stepped_by_hand (handle_resume (handle_stop s)).
Proof.
  cbv zeta.
  assert (forall s', procs (world s') = procs (world s) ->
            step_count (ctrl (world s')) = step_count (ctrl (world s)) ->
            emitted (world s') = emitted (world s) ->
            is_running (ctrl (world s')) = false ->
            auto_mode (ctrl (world s')) = false ->
            exists w', handle_step_forward env (world s') = Returned w' /\
              (step_count (ctrl w') = (step_count (ctrl (world s)) + 1)%Z /\
               Forall2 stepped (procs (world s)) (procs w')) /\
              view standing w' = view standing (world s) /\
              logged MsgPhase1 w' = logged MsgPhase1 (world s)) as Hstop.
  { intros s' Hp Hc He Hr Ha. exists (advance_all env (world s')).
    destruct (advance_all_spec env (world s')) as (Hcfg & _).
    destruct (advance_all_effect env (world s')) as (H1 & H2 & H3 & H4).
    split.
    - unfold handle_step_forward. rewrite Hr. cbn [negb orb].
      unfold step_computation.
      assert (auto_mode (ctrl (advance_all env (world s'))) = false) as ->
        by (unfold config in Hcfg; injection Hcfg as ?; congruence).
      done.
    - rewrite H1, H3, H4. unfold view, logged. rewrite <- Hp, Hc, He in *. done. }
  assert (handle_step_forward env (world (handle_pause s))
          = step_computation env (world (handle_pause s))) as Hpause.
  { unfold handle_step_forward.
    change (is_paused (ctrl (world (handle_pause s)))) with true.
    by rewrite orb_true_r. }
  split; [|split; [done|split; [|split]]].
  - intros Hr Hp. unfold handle_step_forward. by rewrite Hr, Hp.
  - rewrite Hpause. split.
    + etransitivity; [apply step_count_config, step_computation_config|].
      by destruct (advance_all_effect env (world (handle_pause s))) as (-> & _).
    + apply (step_computation_stepped env (world (handle_pause s))).
  - by apply Hstop.
  - by apply Hstop.
Qed.

Lemma step_forward_guard_witness :
  handle_step_forward sample_env auto_world = Returned auto_world.
Proof.
  destruct (step_forward_guard sample_env (mkServer auto_world [])) as [H _].
  apply H; reflexivity.
Defined.

(** ** The oracles read by a run *)

Lemma clock_handle_trigger_failure k w :
  ticks (handle_trigger_failure k w) = ticks w /\
  uuids (handle_trigger_failure k w) = uuids w.
Proof.
  unfold handle_trigger_failure.
  destruct (get_process (ctrl w) k) as [[i p]|]; [|done]. by destruct (is_failed p).
Qed.

Lemma clock_sleep w : ticks (sleep w) = ticks w /\ uuids (sleep w) = uuids w.
Proof.
  unfold sleep. destruct (arrivals w) as [|now later]; [done|].
  change (ticks w) with (ticks (set_arrivals later w)).
  change (uuids w) with (uuids (set_arrivals later w)).
  generalize (set_arrivals later w). clear w.
  induction now as [|k ks IH]; intros w; simpl; [done|].
  destruct (IH (handle_trigger_failure k w)) as [-> ->].
  apply clock_handle_trigger_failure.
Qed.

Lemma ticks_sleep w : ticks (sleep w) = ticks w.
Proof. apply clock_sleep. Qed.

Lemma uuids_sleep w : uuids (sleep w) = uuids w.
Proof. apply clock_sleep. Qed.

Lemma clock_commit_loop tent w :
  ticks (fold_left commit_step tent w) = ticks w /\
  uuids (fold_left commit_step tent w) = uuids w.
Proof.
  revert w. induction tent as [|[i ck] tent IH]; intros w; [done|].
  change (fold_left commit_step ((i, ck) :: tent) w)
    with (fold_left commit_step tent (commit_step w (i, ck))).
  destruct (IH (commit_step w (i, ck))) as [-> ->]. unfold commit_step.
  destruct (procs w !! i) as [p|]; [|done].
  by rewrite ticks_sleep, uuids_sleep.
Qed.

Lemma clock_abort_loop tent w :
  ticks (fold_left abort_step tent w) = ticks w /\
  uuids (fold_left abort_step tent w) = uuids w.
Proof.
  revert w. induction tent as [|x tent IH]; intros w; [done|].
  change (fold_left abort_step (x :: tent) w)
    with (fold_left abort_step tent (abort_step w x)).
  by destruct (IH (abort_step w x)) as [-> ->].
Qed.

Lemma tentative_step_alive env i w acc p :
  procs w !! i = Some p -> is_failed p = false ->
  tentative_step env i (w, acc)
  = let r := take_tentative_checkpoint (time_time env (ticks w))
               (uuid4 env (uuids w)) p in
    (sleep (emit_log (MsgTentative (custom_name r.1) (checkpoint_id r.2)
                        (computation_step (state r.1))) log_info
              (emit_update (update_process i (fun _ => r.1)
                 (set_ticks (S (ticks w)) (set_uuids (S (uuids w)) w))))),
     acc ++ [(i, r.2)]).
Proof. intros Hp Hf. unfold tentative_step. by rewrite Hp, Hf. Qed.

Lemma tentative_loop_stamps env (t0 u0 : nat) idxs : forall st,
  ticks st.1 = t0 + length st.2 -> uuids st.1 = u0 + length st.2 ->
  stamp <$> st.2.*2
  = (fun j => (String.substring 0 8 (uuid4 env (u0 + j)), time_time env (t0 + j)))
    <$> seq 0 (length st.2) ->
  ticks (tentative_loop env idxs st).1 = t0 + length (tentative_loop env idxs st).2 /\
  uuids (tentative_loop env idxs st).1 = u0 + length (tentative_loop env idxs st).2 /\
  stamp <$> (tentative_loop env idxs st).2.*2
  = (fun j => (String.substring 0 8 (uuid4 env (u0 + j)), time_time env (t0 + j)))
    <$> seq 0 (length (tentative_loop env idxs st).2).
Proof.
  induction idxs as [|i idxs IH]; intros [w acc] Ht Hu Hs; [done|].
  cbn [fst snd] in *. rewrite tentative_loop_cons.
  destruct (procs w !! i) as [p|] eqn:Hp.
  - destruct (is_failed p) eqn:Hf.
    + unfold tentative_step. rewrite Hp, Hf. by apply IH.
    + rewrite (tentative_step_alive env i w acc p Hp Hf). cbv zeta.
      apply IH; cbn [fst snd].
      * rewrite ticks_sleep, length_app. simpl. lia.
      * rewrite uuids_sleep, length_app. simpl. lia.
      * rewrite length_app. simpl length. rewrite Nat.add_1_r, seq_S.
        rewrite !fmap_app, Hs. simpl. unfold stamp. simpl. by rewrite Ht, Hu.
  - unfold tentative_step. rewrite Hp. by apply IH.
Qed.

(** X10. A run reads the clock and draws a uuid once per tentative checkpoint,
    in the order of collection, and at no other point, whatever arrives
    meanwhile.  So the checkpoints of one run carry the first 8 characters of
    consecutive uuids, and their ids are pairwise distinct as soon as the
    prefixes of the uuids drawn are. *)
Theorem checkpoint_stamps env w :
  stamp <$> (phase1 env w).2.*2
  = fresh_stamp env w <$> seq 0 (length (phase1 env w).2) /\
  ticks (initiate_checkpoint env w).1 = ticks w + length (phase1 env w).2 /\
  uuids (initiate_checkpoint env w).1 = uuids w + length (phase1 env w).2 /\
  ((forall a b, a < length (phase1 env w).2 -> b < length (phase1 env w).2 ->
      String.substring 0 8 (uuid4 env (uuids w + a))
      = String.substring 0 8 (uuid4 env (uuids w + b)) -> a = b) ->
   NoDup (checkpoint_id <$> (phase1 env w).2.*2)).
Proof.
  assert (ticks (phase1 env w).1 = ticks w + length (phase1 env w).2 /\
          uuids (phase1 env w).1 = uuids w + length (phase1 env w).2 /\
          stamp <$> (phase1 env w).2.*2
          = fresh_stamp env w <$> seq 0 (length (phase1 env w).2)) as (Ht & Hu & Hs).
  { unfold phase1. apply tentative_loop_stamps; cbn [fst snd]; [..|done].
    - unfold phase1_start. rewrite ticks_sleep. simpl. lia.
    - unfold phase1_start. rewrite uuids_sleep. simpl. lia. }
  split; [done|].
  assert (ticks (initiate_checkpoint env w).1 = ticks (phase1 env w).1 /\
          uuids (initiate_checkpoint env w).1 = uuids (phase1 env w).1) as [Ht' Hu'].
  { unfold initiate_checkpoint. destruct (phase1 env w) as [w1 tent].
    cbv zeta. cbn [fst snd].
    change (ticks (emit_update (set_procs ?l ?x))) with (ticks x).
    change (uuids (emit_update (set_procs ?l ?x))) with (uuids x).
    rewrite ticks_sleep, uuids_sleep. unfold phase2.
    destruct (all_acks (sleep w1) tent).
    - destruct (clock_commit_loop tent
                  (sleep (emit_log MsgCommitting log_success (sleep w1)))) as [-> ->].
      rewrite ticks_sleep, uuids_sleep.
      change (ticks (emit_log ?m ?t ?x)) with (ticks x).
      change (uuids (emit_log ?m ?t ?x)) with (uuids x).
      by rewrite ticks_sleep, uuids_sleep.
    - destruct (clock_abort_loop tent
                  (emit_log MsgAborted log_error (sleep w1))) as [-> ->].
      change (ticks (emit_log ?m ?t ?x)) with (ticks x).
      change (uuids (emit_log ?m ?t ?x)) with (uuids x).
      by rewrite ticks_sleep, uuids_sleep. }
  split; [congruence|]. split; [congruence|]. intros Hinj.
  assert (checkpoint_id <$> (phase1 env w).2.*2
          = (fun j => String.substring 0 8 (uuid4 env (uuids w + j)))
            <$> seq 0 (length (phase1 env w).2)) as ->.
  { apply (f_equal (fmap fst)) in Hs. rewrite <- !list_fmap_compose in Hs.
    rewrite <- list_fmap_compose. exact Hs. }
  apply NoDup_fmap_2_strong; [|apply NoDup_seq].
  intros a b Ha Hb Hab. apply elem_of_seq in Ha, Hb. apply Hinj; [lia|lia|done].
Qed.

Lemma checkpoint_stamps_witness :
  NoDup (checkpoint_id <$> (phase1 sample_env (three_processes [])).2.*2).
Proof.
  destruct (checkpoint_stamps sample_env (three_processes [])) as (_ & _ & _ & H).
  apply H.
  change (length (phase1 sample_env (three_processes [])).2)
    with 3.
  intros a b Ha Hb Hab.
  destruct a as [|[|[|a]]]; [| | |lia];
    (destruct b as [|[|[|b]]]; [| | |lia]);
    try reflexivity; vm_compute in Hab; discriminate Hab.
Defined.

(** ** The log lines of a run *)

Section LogLines.

Variable P : Message -> bool.
Variables bt bc : bool.
Hypothesis P_failure : forall n, P (MsgFailure n) = false.
Hypothesis P_tentative : forall a b c, P (MsgTentative a b c) = bt.
Hypothesis P_committed : forall a b, P (MsgCommitted a b) = bc.
Hypothesis P_phase1 : P MsgPhase1 = false.
Hypothesis P_committing : P MsgCommitting = false.
Hypothesis P_aborted : P MsgAborted = false.

Lemma logged_if_emit_log m t w :
  logged_if P (emit_log m t w) = logged_if P w + (if P m then 1 else 0).
Proof.
  unfold logged_if, emit_log, emit. cbn [emitted set_emitted].
  rewrite List.filter_app, length_app. simpl. by destruct (P m).
Qed.

Lemma logged_if_emit_update w : logged_if P (emit_update w) = logged_if P w.
Proof.
  unfold logged_if, emit_update, emit. cbn [emitted set_emitted].
  rewrite List.filter_app, length_app. simpl. lia.
Qed.

Lemma logged_if_handle_trigger_failure k w :
  logged_if P (handle_trigger_failure k w) = logged_if P w.
Proof.
  unfold handle_trigger_failure.
  destruct (get_process (ctrl w) k) as [[i p]|]; [|done].
  destruct (is_failed p); [done|].
  rewrite logged_if_emit_log, logged_if_emit_update, P_failure.
  change (logged_if P (update_process ?i ?g ?x)) with (logged_if P x). lia.
Qed.

Lemma logged_if_sleep w : logged_if P (sleep w) = logged_if P w.
Proof.
  unfold sleep. destruct (arrivals w) as [|now later]; [done|].
  change (logged_if P w) with (logged_if P (set_arrivals later w)).
  generalize (set_arrivals later w). clear w.
  induction now as [|k ks IH]; intros w; simpl; [done|].
  by rewrite IH, logged_if_handle_trigger_failure.
Qed.

Lemma logged_if_tentative_loop env idxs : forall st,
  logged_if P (tentative_loop env idxs st).1 + (if bt then length st.2 else 0)
  = logged_if P st.1 + (if bt then length (tentative_loop env idxs st).2 else 0).
Proof.
  induction idxs as [|i idxs IH]; intros [w acc]; [done|].
  rewrite tentative_loop_cons. cbn [fst snd].
  destruct (procs w !! i) as [p|] eqn:Hp.
  - destruct (is_failed p) eqn:Hf.
    + unfold tentative_step. rewrite Hp, Hf. apply (IH (w, acc)).
    + specialize (IH (tentative_step env i (w, acc))).
      assert (logged_if P (tentative_step env i (w, acc)).1
              = logged_if P w + (if bt then 1 else 0) /\
              length (tentative_step env i (w, acc)).2 = S (length acc)) as [Hl Hn].
      { rewrite (tentative_step_alive env i w acc p Hp Hf). cbv zeta.
        cbn [fst snd]. split.
        - rewrite logged_if_sleep, logged_if_emit_log, logged_if_emit_update.
          by rewrite P_tentative.
        - rewrite length_app. simpl. lia. }
      rewrite Hl, Hn in IH. destruct bt; lia.
  - unfold tentative_step. rewrite Hp. apply (IH (w, acc)).
Qed.

Lemma logged_if_commit_loop tent : forall w,
  Forall (fun x => x.1 < length (procs w)) tent ->
  logged_if P (fold_left commit_step tent w)
  = logged_if P w + (if bc then length tent else 0).
Proof.
  induction tent as [|[i ck] tent IH]; intros w Hall.
  - simpl. destruct bc; lia.
  - apply Forall_cons in Hall as [Hi Hall]. simpl in Hi.
    change (fold_left commit_step ((i, ck) :: tent) w)
      with (fold_left commit_step tent (commit_step w (i, ck))).
    apply lookup_lt_is_Some in Hi as [p Hp].
    assert (logged_if P (commit_step w (i, ck))
            = logged_if P w + (if bc then 1 else 0) /\
            length (procs (commit_step w (i, ck))) = length (procs w)) as [Hl Hn].
    { unfold commit_step. rewrite Hp. split.
      - rewrite logged_if_sleep, logged_if_emit_log, logged_if_emit_update.
        by rewrite P_committed.
      - rewrite length_sleep.
        change (procs (emit_log ?m ?t (emit_update ?x))) with (procs x).
        apply length_update_process. }
    rewrite IH by (by rewrite Hn). rewrite Hl. simpl length. destruct bc; lia.
Qed.

Lemma logged_if_abort_loop tent w :
  logged_if P (fold_left abort_step tent w) = logged_if P w.
Proof.
  revert w. induction tent as [|x tent IH]; intros w; [done|]. simpl. by rewrite IH.
Qed.

Lemma logged_if_initiate_checkpoint env w :
  logged_if P (initiate_checkpoint env w).1
  = logged_if P w
    + (if bt then length (phase1 env w).2 else 0)
    + (if bc && (initiate_checkpoint env w).2 then length (phase1 env w).2 else 0).
Proof.
  assert (logged_if P (phase1 env w).1
          = logged_if P w + (if bt then length (phase1 env w).2 else 0)) as Hph.
  { unfold phase1.
    pose proof (logged_if_tentative_loop env
                  (seq 0 (length (procs (phase1_start w)))) (phase1_start w, [])) as H.
    cbn [fst snd] in H. unfold phase1_start at 3 in H.
    rewrite logged_if_sleep, logged_if_emit_log, P_phase1 in H.
    simpl length in H. destruct bt; lia. }
  assert (Forall (fun x => x.1 < length (procs w)) (phase1 env w).2) as Hall.
  { apply Forall_forall. intros x Hx.
    assert (x.1 ∈ (phase1 env w).2.*1) as Hin by (by apply list_elem_of_fmap_2).
    eapply elem_of_sublist in Hin; [|apply phase1_collected_sublist].
    apply elem_of_seq in Hin. lia. }
  assert (length (procs (phase1 env w).1) = length (procs w)) as Hlen.
  { rewrite <- !(length_view pid). f_equal. by apply view_phase1. }
  unfold initiate_checkpoint.
  destruct (phase1 env w) as [w1 tent]. cbn [fst snd] in *. cbv zeta.
  cbn [fst snd].
  rewrite logged_if_emit_update.
  change (logged_if P (set_procs ?l ?x)) with (logged_if P x).
  rewrite logged_if_sleep. unfold phase2.
  destruct (all_acks (sleep w1) tent).
  - rewrite logged_if_commit_loop.
    + rewrite logged_if_sleep, logged_if_emit_log, logged_if_sleep, P_committing, Hph.
      rewrite andb_true_r. lia.
    + rewrite length_sleep.
      change (procs (emit_log ?m ?t ?x)) with (procs x).
      by rewrite length_sleep, Hlen.
  - rewrite logged_if_abort_loop, logged_if_emit_log, logged_if_sleep, P_aborted, Hph.
    rewrite andb_false_r. lia.
Qed.

End LogLines.

(** X11. The log of a run, whatever arrives meanwhile: one tentative line per
    pair collected in phase 1; then, if the run returns [true], one committed
    line per pair, and none if it returns [false]. *)
Theorem checkpoint_log_lines env w :
  logged_if is_tentative_line (initiate_checkpoint env w).1
  = logged_if is_tentative_line w + length (phase1 env w).2 /\
  logged_if is_committed_line (initiate_checkpoint env w).1
  = logged_if is_committed_line w
    + (if (initiate_checkpoint env w).2 then length (phase1 env w).2 else 0).
Proof.
  split.
  - rewrite (logged_if_initiate_checkpoint is_tentative_line true false) by done.
    simpl. lia.
  - rewrite (logged_if_initiate_checkpoint is_committed_line false true) by done.
    simpl. lia.
Qed.

(** ** A tentative checkpoint that is aborted *)

(** X2. [abort_checkpoint] after [take_tentative_checkpoint] leaves nothing of
    the tentative checkpoint in the process: a process that was [running]
    with no pending kind is exactly what it was before, its history
    included; and aborting twice is the same as aborting once. *)
Theorem abort_undoes_tentative now uid p :
  abort_checkpoint (take_tentative_checkpoint now uid p).1 = abort_checkpoint p /\
  (status p = running -> checkpoint_type p = None ->
   abort_checkpoint (take_tentative_checkpoint now uid p).1 = p) /\
  abort_checkpoint (abort_checkpoint p) = abort_checkpoint p.
Proof.
  split; [done|]. split; [|done].
  intros Hs Hk. destruct p. simpl in *. by subst.
Qed.

Lemma abort_undoes_tentative_witness :
  abort_checkpoint
    (take_tentative_checkpoint 1.0%float "0123456789"%string
       (new_process (random_random sample_env) 0 0%Z 1%Z None).1).1
  = (new_process (random_random sample_env) 0 0%Z 1%Z None).1.
Proof.
  destruct (abort_undoes_tentative 1.0%float "0123456789"%string
              (new_process (random_random sample_env) 0 0%Z 1%Z None).1)
    as (_ & H & _).
  apply H; reflexivity.
Defined.

(** ** A run without arrivals, process by process *)

Lemma idle_commit_loop tent : forall w,
  arrivals w = [] ->
  arrivals (fold_left commit_step tent w) = [] /\
  view is_failed (fold_left commit_step tent w) = view is_failed w.
Proof.
  induction tent as [|[i ck] tent IH]; intros w Hidle; [done|].
  change (fold_left commit_step ((i, ck) :: tent) w)
    with (fold_left commit_step tent (commit_step w (i, ck))).
  assert (arrivals (commit_step w (i, ck)) = [] /\
          view is_failed (commit_step w (i, ck)) = view is_failed w) as [Ha Hv].
  { unfold commit_step. destruct (procs w !! i) as [p|]; [|done].
    rewrite sleep_idle by done. split; [done|].
    change (view is_failed (update_process i (commit_checkpoint ck) w)
            = view is_failed w).
    by apply view_update_process. }
  destruct (IH _ Ha) as [Ha' Hv']. split; [done|]. by rewrite Hv'.
Qed.

Lemma is_failed_finalize p : is_failed (finalize p) = is_failed p.
Proof. unfold finalize. by destruct (is_failed p) eqn:Hf. Qed.

Lemma idle_initiate_checkpoint env w :
  arrivals w = [] ->
  view is_failed (initiate_checkpoint env w).1 = view is_failed w.
Proof.
  intros Hidle.
  destruct (initiate_checkpoint_idle env w Hidle) as [_ Hres].
  rewrite initiate_checkpoint_result in Hres.
  destruct (phase1_idle env w Hidle) as (Ha & Hv & _).
  unfold at_decision in Hres. unfold initiate_checkpoint.
  destruct (phase1 env w) as [w1 tent]. cbn [fst snd] in *. cbv zeta.
  rewrite Hres. cbn [fst snd].
  change (view is_failed (emit_update (set_procs ?l ?x))) with (is_failed <$> l).
  rewrite <- list_fmap_compose.
  rewrite (list_fmap_ext (is_failed ∘ finalize) is_failed)
    by (intros; apply is_failed_finalize).
  unfold phase2. rewrite (sleep_idle w1) by done.
  rewrite (sleep_idle (emit_log MsgCommitting log_success w1)) by done.
  destruct (idle_commit_loop tent (emit_log MsgCommitting log_success w1) Ha)
    as [Ha' Hv'].
  rewrite sleep_idle by done.
  change (view is_failed (fold_left commit_step tent
            (emit_log MsgCommitting log_success w1)) = view is_failed w).
  by rewrite Hv'.
Qed.

(** X9. A run without arrivals, completely.  A failed process is left as it
    is.  Every other process gets exactly one new history entry, permanent,
    with its pid, its state dict and its counters, and ends [running] with no
    pending kind; nothing else of it changes.  The run returns [true]. *)
Theorem sequential_run env w i p :
  arrivals w = [] -> procs w !! i = Some p ->
  (initiate_checkpoint env w).2 = true /\
  (is_failed p = true -> procs (initiate_checkpoint env w).1 !! i = Some p) /\
  (is_failed p = false ->
   exists ck,
     procs (initiate_checkpoint env w).1 !! i
     = Some (set_checkpoint_type None (set_status running
               (set_checkpoints (checkpoints p ++ [ck]) p))) /\
     ckpt_type ck = permanent /\ ckpt_pid ck = pid p /\ snapshot ck = captured p).
Proof.
  intros Hidle Hp.
  destruct (initiate_checkpoint_idle env w Hidle) as [_ Hres].
  split; [done|]. split.
  - intros Hf. by apply checkpoint_keeps_failed.
  - intros Hf.
    destruct (initiate_checkpoint_history env w i p Hp)
      as (p' & cks & Hp' & Hc & Hall & Hlen).
    rewrite Hres, (participant_idle env w i Hidle) in Hlen.
    unfold alive in Hlen. rewrite Hp, Hf in Hlen. simpl in Hlen.
    destruct cks as [|ck [|? ?]]; try done.
    apply Forall_singleton in Hall as (Ht & Hpid & Hs).
    exists ck. split; [|done]. rewrite Hp'. f_equal.
    assert (is_failed p' = false) as Hf'.
    { assert (view is_failed (initiate_checkpoint env w).1 !! i
              = view is_failed w !! i) as Hv
        by (by rewrite idle_initiate_checkpoint).
      unfold view in Hv. rewrite !list_lookup_fmap, Hp, Hp' in Hv.
      injection Hv as Hv. congruence. }
    assert (status p' = running /\ checkpoint_type p' = None) as [Hst Hk].
    { apply (checkpoint_finalized env w); [|done]. by eapply list_elem_of_lookup_2. }
    assert (identity p' = identity p /\ captured p' = captured p) as [Hid Hcap].
    { assert (view (fun q => (identity q, captured q)) (initiate_checkpoint env w).1 !! i
              = view (fun q => (identity q, captured q)) w !! i) as Hv
        by (by rewrite view_initiate_checkpoint).
      unfold view in Hv. rewrite !list_lookup_fmap, Hp, Hp' in Hv.
      apply (inj Some) in Hv. by apply pair_equal_spec in Hv. }
    unfold identity, captured in *.
    unfold set_checkpoint_type, set_status, set_checkpoints.
    destruct p, p'. simpl in *. simplify_eq. reflexivity.
Qed.

Lemma sequential_run_witness :
  (initiate_checkpoint sample_env (handle_trigger_failure 1 (three_processes []))).2
  = true.
Proof.
  assert (exists p, procs (handle_trigger_failure 1 (three_processes [])) !! 0 = Some p)
    as [p Hp].
  { vm_compute. eexists. reflexivity. }
  destruct (sequential_run sample_env (handle_trigger_failure 1 (three_processes []))
              0 p) as [H _]; [reflexivity|exact Hp|exact H].
Defined.
